(** * errorlytic-backend: vehicle routes and the Booking model

    A shallow embedding of [src/routes/vehicles.js] and
    [src/models/Booking.js], with the properties of the specification
    stated against it.

    Conventions of the embedding.
    - A JavaScript value that may be [undefined] is an [option]; [None]
      is [undefined].
    - Object ids are kept in their string rendering (what [toString()]
      gives and what the request carries).
    - A string the code compares, searches or concatenates is a Rocq
      string, one character per code unit (those below 256); a string
      the code measures is a text, the list of its UTF-16 code units.
    - Timestamps are milliseconds since the epoch, in [Z].
    - The document store is a list of documents per collection; it
      answers every query, except that a cursor refuses a negative skip.
      Its regular expression engine and the image provider are
      parameters; the provider may fail, with a message.
      [generate_image_with] is image generation over a store whose
      calls may fail as well. *)

From Stdlib Require Import String Ascii List NArith ZArith QArith Lia Bool.
From Stdlib Require Import Sorted Permutation.
Import ListNotations.

Local Open Scope string_scope.
Local Open Scope list_scope.

(** ** JavaScript helpers *)

Module JS.

(** Truthiness of a string: only the empty string is falsy. *)
Definition truthy (s : string) : bool :=
  match s with
  | EmptyString => false
  | String _ _ => true
  end.

(** Truthiness of a possibly undefined string. *)
Definition truthy_opt (o : option string) : bool :=
  match o with
  | Some s => truthy s
  | None => false
  end.

(** [a || d] where [d] is a string literal. *)
Definition or_default (a : option string) (d : string) : string :=
  match a with
  | Some s => if truthy s then s else d
  | None => d
  end.

(** [a || b] where both may be undefined: [a] when truthy, else [b]
    whatever it is. *)
Definition or_opt (a b : option string) : option string :=
  if truthy_opt a then a else b.

(** A value inside a template literal. *)
Definition interpolate (o : option string) : string :=
  match o with
  | Some s => s
  | None => "undefined"
  end.

(** [hay.includes(needle)], case-sensitive. *)
Fixpoint includes (needle hay : string) : bool :=
  String.prefix needle hay ||
  match hay with
  | EmptyString => false
  | String _ rest => includes needle rest
  end.

(** A string as JavaScript has it: its UTF-16 code units. *)
Definition text : Type := list N.

(** The code units [String.prototype.trim] removes: WhiteSpace (tab,
    vertical tab, form feed, the space separators, the byte order mark)
    and LineTerminator (line feed, carriage return, U+2028, U+2029). *)
Definition is_white_space (c : N) : bool :=
  ((9 <=? c) && (c <=? 13))%N
  || (c =? 32)%N || (c =? 160)%N || (c =? 5760)%N
  || ((8192 <=? c) && (c <=? 8202))%N
  || (c =? 8232)%N || (c =? 8233)%N || (c =? 8239)%N || (c =? 8287)%N
  || (c =? 12288)%N || (c =? 65279)%N.

(** The same on a character of a Rocq string. *)
Definition is_ws (c : ascii) : bool := is_white_space (N_of_ascii c).

Fixpoint trim_start (s : string) : string :=
  match s with
  | EmptyString => EmptyString
  | String c rest => if is_ws c then trim_start rest else s
  end.

Fixpoint trim_end (s : string) : string :=
  match s with
  | EmptyString => EmptyString
  | String c rest =>
      match trim_end rest with
      | EmptyString => if is_ws c then EmptyString else String c EmptyString
      | rest' => String c rest'
      end
  end.

Definition trim (s : string) : string := trim_end (trim_start s).

(** [trim] on a text. *)
Fixpoint trim_start_text (s : text) : text :=
  match s with
  | [] => []
  | c :: rest => if is_white_space c then trim_start_text rest else s
  end.

Fixpoint trim_end_text (s : text) : text :=
  match s with
  | [] => []
  | c :: rest =>
      match trim_end_text rest with
      | [] => if is_white_space c then [] else [c]
      | rest' => c :: rest'
      end
  end.

Definition trim_text (s : text) : text := trim_end_text (trim_start_text s).

(** The code units of a string literal. *)
Fixpoint text_of_string (s : string) : text :=
  match s with
  | EmptyString => []
  | String c rest => N_of_ascii c :: text_of_string rest
  end.

End JS.

(** ** The Booking model ([src/models/Booking.js]) *)

Module Booking.

(** Embedded contact of a walk-in client. *)
Record ClientInfo := {
  ci_name : option string;
  ci_email : option string;
  ci_phone : option string
}.

(** Embedded description of an unregistered vehicle. *)
Record VehicleInfo := {
  vi_make : option string;
  vi_model : option string;
  vi_year : option Z;
  vi_plate : option string
}.

(** A booking document; every path of [bookingSchema], in schema order
    ([timestamps] aside). *)
Record t := {
  clientId : option string;
  clientInfo : option ClientInfo;
  vehicleInfo : option VehicleInfo;
  garageId : option string;
  vehicleId : option string;
  serviceType : option string;
  scheduledDate : option Z;
  duration : option Z;
  status : option string;
  notes : option JS.text;
  garageNotes : option JS.text;
  googleCalendarEventId : option JS.text;
  createdBy : option string;
  source : option string;
  confirmedBy : option string;
  confirmedAt : option Z;
  quotationId : option string;
  analysisId : option string;
  cancellationReason : option JS.text;
  cancelledBy : option string;
  cancelledAt : option Z;
  completedAt : option Z;
  isActive : option bool
}.

Definition serviceType_enum : list string :=
  ["inspection"; "repair"; "maintenance"; "diagnostic"].

Definition status_enum : list string :=
  ["pending"; "confirmed"; "in_progress"; "completed"; "cancelled"].

Definition source_enum : list string :=
  ["app"; "public_booking"; "walk_in"].

Definition duration_default : Z := 60.
Definition duration_min : Z := 15.
Definition notes_maxLength : nat := 1000.

(** [default: d]: used when the path is undefined. *)
Definition with_default {A : Type} (d : A) (o : option A) : option A :=
  match o with
  | Some x => Some x
  | None => Some d
  end.

(** [trim: true]: the setter of a string path. *)
Definition trimmed (o : option JS.text) : option JS.text :=
  option_map JS.trim_text o.

(** [new Booking(obj)]: setters and defaults applied to the given
    paths. *)
Definition construct (obj : t) : t :=
  {| clientId := clientId obj;
     clientInfo := clientInfo obj;
     vehicleInfo := vehicleInfo obj;
     garageId := garageId obj;
     vehicleId := vehicleId obj;
     serviceType := serviceType obj;
     scheduledDate := scheduledDate obj;
     duration := with_default duration_default (duration obj);
     status := with_default "pending" (status obj);
     notes := trimmed (notes obj);
     garageNotes := trimmed (garageNotes obj);
     googleCalendarEventId := trimmed (googleCalendarEventId obj);
     createdBy := createdBy obj;
     source := with_default "app" (source obj);
     confirmedBy := confirmedBy obj;
     confirmedAt := confirmedAt obj;
     quotationId := quotationId obj;
     analysisId := analysisId obj;
     cancellationReason := trimmed (cancellationReason obj);
     cancelledBy := cancelledBy obj;
     cancelledAt := cancelledAt obj;
     completedAt := completedAt obj;
     isActive := with_default true (isActive obj) |}.

(** The validators a schema path can carry. *)
Inductive ValidatorKind := Required | Enum | Min | MaxLength.

(** A validation failure: the path and the validator that failed. *)
Definition ValidationError : Type := string * ValidatorKind.

Definition mem (s : string) (l : list string) : bool :=
  existsb (String.eqb s) l.

(** [required: true] on an id, date or number path. *)
Definition check_required {A : Type} (path : string) (o : option A)
  : list ValidationError :=
  match o with
  | Some _ => []
  | None => [(path, Required)]
  end.

(** [required: true] on a string path: the empty string does not
    count as a value. *)
Definition check_required_string (path : string) (o : option string)
  : list ValidationError :=
  if JS.truthy_opt o then [] else [(path, Required)].

(** [enum: [...]]: skipped on an undefined path. *)
Definition check_enum (path : string) (values : list string)
  (o : option string) : list ValidationError :=
  match o with
  | Some s => if mem s values then [] else [(path, Enum)]
  | None => []
  end.

(** [min: m]. *)
Definition check_min (path : string) (m : Z) (o : option Z)
  : list ValidationError :=
  match o with
  | Some v => if (m <=? v)%Z then [] else [(path, Min)]
  | None => []
  end.

(** [maxLength: n]: the length of a string is the number of its code
    units. *)
Definition check_maxLength (path : string) (n : nat) (o : option JS.text)
  : list ValidationError :=
  match o with
  | Some s => if Nat.leb (List.length s) n then [] else [(path, MaxLength)]
  | None => []
  end.

(** [doc.validate()]: the failures, path by path in schema order. *)
Definition validate (doc : t) : list ValidationError :=
  check_required "garageId" (garageId doc)
  ++ check_required_string "serviceType" (serviceType doc)
  ++ check_enum "serviceType" serviceType_enum (serviceType doc)
  ++ check_required "scheduledDate" (scheduledDate doc)
  ++ check_required "duration" (duration doc)
  ++ check_min "duration" duration_min (duration doc)
  ++ check_enum "status" status_enum (status doc)
  ++ check_maxLength "notes" notes_maxLength (notes doc)
  ++ check_maxLength "garageNotes" notes_maxLength (garageNotes doc)
  ++ check_enum "source" source_enum (source doc).

(** A constructed booking is accepted when validation reports
    nothing. *)
Definition accepted (obj : t) : bool :=
  match validate (construct obj) with
  | [] => true
  | _ :: _ => false
  end.

Definition rejected (obj : t) : bool := negb (accepted obj).

(** The virtual [isUpcoming]; [now] is [new Date()].  A comparison
    with an undefined date is false. *)
Definition isUpcoming (now : Z) (doc : t) : bool :=
  match scheduledDate doc with
  | Some d =>
      (now <? d)%Z &&
      negb (match status doc with
            | Some s => String.eqb s "cancelled"
            | None => false
            end)
  | None => false
  end.

(** The virtual [isPast]. *)
Definition isPast (now : Z) (doc : t) : bool :=
  match scheduledDate doc with
  | Some d => (d <? now)%Z
  | None => false
  end.

(** What validation asks of the object a booking is built from. *)
Definition valid (obj : t) : Prop :=
  garageId obj <> None
  /\ (exists s, serviceType obj = Some s /\ In s serviceType_enum)
  /\ scheduledDate obj <> None
  /\ (forall d, duration obj = Some d -> (duration_min <= d)%Z)
  /\ (forall s, status obj = Some s -> In s status_enum)
  /\ (forall s, notes obj = Some s ->
                (List.length (JS.trim_text s) <= notes_maxLength)%nat)
  /\ (forall s, garageNotes obj = Some s ->
                (List.length (JS.trim_text s) <= notes_maxLength)%nat)
  /\ (forall s, source obj = Some s -> In s source_enum).

(** The paths the validators read, the rest left undefined. *)
Definition make (garage service : option string) (date dur : option Z)
  (st : option string) (nts gnts : option JS.text) (src : option string)
  : t :=
  {| clientId := None; clientInfo := None; vehicleInfo := None;
     garageId := garage; vehicleId := None; serviceType := service;
     scheduledDate := date; duration := dur; status := st;
     notes := nts; garageNotes := gnts; googleCalendarEventId := None;
     createdBy := None; source := src; confirmedBy := None;
     confirmedAt := None; quotationId := None; analysisId := None;
     cancellationReason := None; cancelledBy := None; cancelledAt := None;
     completedAt := None; isActive := None |}.

End Booking.

(** ** The vehicle routes ([src/routes/vehicles.js]) *)

Module Vehicles.

(** *** Documents *)

(** Embedded owner contact of a vehicle without a user account. *)
Record OwnerInfo := {
  oi_name : option string;
  oi_email : option string;
  oi_phone : option string
}.

(** A vehicle document, with the paths the routes read or write. *)
Record Vehicle := {
  _id : string;
  ownerUserId : option string;
  orgId : option string;
  ownerInfo : option OwnerInfo;
  make : option string;
  model : option string;
  year : option string;
  plate : option string;
  color : option string;
  isActive : bool;
  imageUrl : option string;
  createdAt : Z
}.

Record Profile := {
  profile_name : option string;
  profile_phone : option string
}.

(** A user document, with the paths the routes populate. *)
Record User := {
  user_id : string;
  email : option string;
  profile : option Profile;
  user_isActive : bool
}.

(** [req.user]: the authenticated principal. *)
Record Principal := {
  req_user_id : string;
  req_user_orgId : option string
}.

Record AuditTarget := {
  target_type : string;
  target_id : string;
  target_make : string;
  target_model : string;
  target_year : string
}.

Record AuditMeta := {
  meta_imageUrl : string;
  meta_provider : string
}.

Record AuditEntry := {
  actorId : string;
  audit_orgId : option string;
  action : string;
  target : AuditTarget;
  meta : AuditMeta
}.

(** The collections the routes touch. *)
Record Store := {
  vehicles : list Vehicle;
  users : list User;
  auditLog : list AuditEntry
}.

(** *** Filters *)

Definition opt_eqb (a b : option string) : bool :=
  match a, b with
  | Some x, Some y => String.eqb x y
  | None, None => true
  | _, _ => false
  end.

(** The string paths the search looks at. *)
Inductive SearchPath := Plate | Make | Model | OwnerInfoName.

(** A one-key filter object, as the elements of a [$or] array are.
    An undefined value is sent as null and matches a document in
    which the path is absent. *)
Inductive Clause :=
| OwnerUserIdIs (value : option string)
| OrgIdIs (value : option string)
| RegexI (path : SearchPath) (pattern : string).

(** The filter object the handlers build; [None] is an absent key.
    [q_and] holds the [$or] arrays pushed on [$and]. *)
Record Query := {
  q_id : option string;
  q_or : option (list Clause);
  q_isActive : option bool;
  q_ownerUserId : option string;
  q_orgId : option string;
  q_and : option (list (list Clause))
}.

Definition path_value (p : SearchPath) (v : Vehicle) : option string :=
  match p with
  | Plate => plate v
  | Make => make v
  | Model => model v
  | OwnerInfoName =>
      match ownerInfo v with
      | Some oi => oi_name oi
      | None => None
      end
  end.

(** *** Responses *)

Record MetricsData := {
  totalUsers : nat;
  totalCars : nat;
  activeUsers : nat;
  changePercentage : Q
}.

Inductive ClientType := registered | embedded.

Record Client := {
  client_id : string;
  client_name : string;
  client_email : string;
  client_phone : string;
  client_type : ClientType
}.

(** The row of the booking form. *)
Record BookingFormRow := {
  bf__id : string;
  bf_id : string;
  bf_make : option string;
  bf_model : option string;
  bf_year : option string;
  bf_plate : option string
}.

(** The row of the main vehicles list. *)
Record ListingRow := {
  row_id : string;
  row_name : string;
  row_registrationNo : string;
  row_carType : string;
  row_email : string;
  row_status : string;
  row_vehicleId : string;
  row_ownerId : option string
}.

Inductive Row :=
| BookingForm (r : BookingFormRow)
| Listing (r : ListingRow).

(** What a handler sends: the error bodies by their [type] tag, the
    success bodies by their payload. *)
Inductive Response :=
| validation_error (detail : string)
| bad_request (detail : string)
| vehicle_not_found
| rate_limit_error
| internal_error (detail : string)
| image_generated (vehicleId : string) (imageUrl : option string)
| metrics_data (data : MetricsData)
| clients_data (data : list Client) (total : nat)
| vehicle_data (data : Vehicle)
| vehicles_data (data : list Row) (total : nat) (page limit : Z)
    (pages : option Z).

(** The HTTP status of a response. *)
Definition status_code (r : Response) : Z :=
  match r with
  | validation_error _ => 400
  | bad_request _ => 400
  | vehicle_not_found => 404
  | rate_limit_error => 429
  | internal_error _ => 500
  | _ => 200
  end.

(** *** Handler monad: a store threaded through, an early [return]
    of a response, and exceptions for the [catch] block. *)

Inductive Outcome (A : Type) : Type :=
| Value (a : A)
| Returned (r : Response)
| Thrown (message : string).

Arguments Value {A} a.
Arguments Returned {A} r.
Arguments Thrown {A} message.

Definition Handler (A : Type) : Type := Store -> Outcome A * Store.

Definition ret {A : Type} (a : A) : Handler A :=
  fun s => (Value a, s).

Definition bind {A B : Type} (m : Handler A) (k : A -> Handler B)
  : Handler B :=
  fun s =>
    match m s with
    | (Value a, s') => k a s'
    | (Returned r, s') => (Returned r, s')
    | (Thrown e, s') => (Thrown e, s')
    end.

Definition respond {A : Type} (r : Response) : Handler A :=
  fun s => (Returned r, s).

Definition throw {A : Type} (message : string) : Handler A :=
  fun s => (Thrown message, s).

Definition query {A : Type} (f : Store -> A) : Handler A :=
  fun s => (Value (f s), s).

Definition update (f : Store -> Store) : Handler unit :=
  fun s => (Value tt, f s).

(** [try { body } catch (error) { handler }]. *)
Definition try_catch (body : Handler Response)
  (handler : string -> Response) (s : Store) : Response * Store :=
  match body s with
  | (Value r, s') => (r, s')
  | (Returned r, s') => (r, s')
  | (Thrown e, s') => (handler e, s')
  end.

Section Routes.

(** [{ $regex: pattern, $options: "i" }] on a string: the regular
    expression engine of the datastore. *)
Variable regex_test : string -> string -> bool.

Definition clause_matches (c : Clause) (v : Vehicle) : bool :=
  match c with
  | OwnerUserIdIs value => opt_eqb (ownerUserId v) value
  | OrgIdIs value => opt_eqb (orgId v) value
  | RegexI path pattern =>
      match path_value path v with
      | Some s => regex_test pattern s
      | None => false
      end
  end.

Definition or_matches (cs : list Clause) (v : Vehicle) : bool :=
  existsb (fun c => clause_matches c v) cs.

Definition key_matches {A : Type} (k : option A) (test : A -> bool)
  : bool :=
  match k with
  | Some x => test x
  | None => true
  end.

(** A document matches when every key of the filter does. *)
Definition matches (q : Query) (v : Vehicle) : bool :=
  key_matches (q_id q) (fun i => String.eqb (_id v) i)
  && key_matches (q_or q) (fun cs => or_matches cs v)
  && key_matches (q_isActive q) (fun b => Bool.eqb (isActive v) b)
  && key_matches (q_ownerUserId q)
       (fun o => opt_eqb (ownerUserId v) (Some o))
  && key_matches (q_orgId q) (fun o => opt_eqb (orgId v) (Some o))
  && key_matches (q_and q)
       (fun ors => forallb (fun cs => or_matches cs v) ors).

(** *** Datastore operations *)

Definition Vehicle_findOne (q : Query) (s : Store) : option Vehicle :=
  List.find (matches q) (vehicles s).

Definition Vehicle_find (q : Query) (s : Store) : list Vehicle :=
  List.filter (matches q) (vehicles s).

Definition Vehicle_countDocuments (q : Query) (s : Store) : nat :=
  List.length (Vehicle_find q s).

(** [.sort({ createdAt: -1 })], stable. *)
Fixpoint insert_desc (v : Vehicle) (l : list Vehicle) : list Vehicle :=
  match l with
  | [] => [v]
  | w :: rest =>
      if (createdAt w <=? createdAt v)%Z then v :: l
      else w :: insert_desc v rest
  end.

Definition sort_createdAt_desc (l : list Vehicle) : list Vehicle :=
  fold_right insert_desc [] l.

(** [.skip(n)]: the datastore refuses a negative number. *)
Definition cursor_skip (n : Z) (l : list Vehicle)
  : option (list Vehicle) :=
  if (n <? 0)%Z then None else Some (skipn (Z.to_nat n) l).

(** [.limit(n)] as the datastore reads it: zero is no limit, a negative
    number limits to its absolute value. *)
Definition cursor_limit (n : Z) (l : list Vehicle) : list Vehicle :=
  if (n =? 0)%Z then l else firstn (Z.to_nat (Z.abs n)) l.

Definition User_findById (id : string) (s : Store) : option User :=
  List.find (fun u => String.eqb (user_id u) id) (users s).

(** A vehicle with [ownerUserId] populated: the user document, or
    null when the path is absent or refers to no user. *)
Record Populated := {
  doc : Vehicle;
  owner : option User
}.

Definition populate (s : Store) (v : Vehicle) : Populated :=
  {| doc := v;
     owner := match ownerUserId v with
              | Some id => User_findById id s
              | None => None
              end |}.

(** [User.countDocuments({ _id: { $in: ids }, isActive: true })]. *)
Definition User_countActiveIn (ids : list string) (s : Store) : nat :=
  List.length
    (List.filter
       (fun u => existsb (String.eqb (user_id u)) ids && user_isActive u)
       (users s)).

(** [vehicle.imageUrl = url; vehicle.save()]: the stored document
    with that id is updated. *)
Definition set_imageUrl (url : string) (v : Vehicle) : Vehicle :=
  {| _id := _id v; ownerUserId := ownerUserId v; orgId := orgId v;
     ownerInfo := ownerInfo v; make := make v; model := model v;
     year := year v; plate := plate v; color := color v;
     isActive := isActive v; imageUrl := Some url;
     createdAt := createdAt v |}.

Fixpoint update_first (id : string) (f : Vehicle -> Vehicle)
  (l : list Vehicle) : list Vehicle :=
  match l with
  | [] => []
  | w :: rest =>
      if String.eqb (_id w) id then f w :: rest
      else w :: update_first id f rest
  end.

Definition Vehicle_save (v : Vehicle) (s : Store) : Store :=
  {| vehicles := update_first (_id v) (fun _ => v) (vehicles s);
     users := users s;
     auditLog := auditLog s |}.

Definition AuditLog_create (e : AuditEntry) (s : Store) : Store :=
  {| vehicles := vehicles s;
     users := users s;
     auditLog := auditLog s ++ [e] |}.

(** The access filter every handler starts from. *)
Definition access_clauses (p : Principal) : list Clause :=
  [OwnerUserIdIs (Some (req_user_id p)); OrgIdIs (req_user_orgId p)].

Notation "x <- m ;; k" := (bind m (fun x => k))
  (at level 61, m at next level, right associativity).

(** *** POST /generate-image *)

Record GenerateImageBody := {
  body_vehicleId : string;
  body_make : string;
  body_model : string;
  body_year : string;
  body_color : string
}.

Definition is_digit (c : ascii) : bool :=
  let n := nat_of_ascii c in Nat.leb 48 n && Nat.leb n 57.

Fixpoint all_digits (s : string) : bool :=
  match s with
  | EmptyString => true
  | String c rest => is_digit c && all_digits rest
  end.

(** [[0-9]+] *)
Definition digits1 (s : string) : bool := JS.truthy s && all_digits s.

(** [[0-9]*[.][0-9]+] *)
Fixpoint decimal (s : string) : bool :=
  match s with
  | EmptyString => false
  | String c rest =>
      if Ascii.eqb c "." then digits1 rest
      else is_digit c && decimal rest
  end.

Definition strip_sign (s : string) : string :=
  match s with
  | String c rest =>
      if Ascii.eqb c "+" || Ascii.eqb c "-" then rest else s
  | EmptyString => s
  end.

(** [isNumeric()]: the pattern [^[+-]?([0-9]*[.])?[0-9]+$]. *)
Definition isNumeric (s : string) : bool :=
  let u := strip_sign s in digits1 u || decimal u.

(** [notEmpty()]. *)
Definition notEmpty (s : string) : bool := JS.truthy s.

Definition check (ok : bool) (message : string) : list string :=
  if ok then [] else [message].

(** [validationResult(req).array()], the messages in chain order. *)
Definition validationResult (b : GenerateImageBody) : list string :=
  check (notEmpty (body_vehicleId b)) "Vehicle ID is required"
  ++ check (notEmpty (body_make b)) "Make is required"
  ++ check (notEmpty (body_model b)) "Model is required"
  ++ check (isNumeric (body_year b)) "Year must be a number".

Record ImageRequest := {
  image_make : string;
  image_model : string;
  image_year : string;
  image_color : string
}.

(** The provider resolves with a URL or rejects with an error. *)
Inductive ProviderResult :=
| Resolved (url : string)
| Rejected (message : string).

Variable generateVehicleImage : ImageRequest -> ProviderResult.

Definition await (r : ProviderResult) : Handler string :=
  match r with
  | Resolved url => ret url
  | Rejected message => throw message
  end.

Definition generate_image_query (p : Principal) (vehicleId : string)
  : Query :=
  {| q_id := Some vehicleId;
     q_or := Some (access_clauses p);
     q_isActive := None; q_ownerUserId := None; q_orgId := None;
     q_and := None |}.

Definition generate_image_audit (p : Principal) (b : GenerateImageBody)
  (url : string) : AuditEntry :=
  {| actorId := req_user_id p;
     audit_orgId := req_user_orgId p;
     action := "vehicle_image_generated";
     target := {| target_type := "vehicle";
                  target_id := body_vehicleId b;
                  target_make := body_make b;
                  target_model := body_model b;
                  target_year := body_year b |};
     meta := {| meta_imageUrl := url;
                meta_provider := "openai-dalle" |} |}.

(** What is handed to the provider; the colour is
    [color || vehicle.color || "silver"]. *)
Definition image_request (b : GenerateImageBody) (vehicle : Vehicle)
  : ImageRequest :=
  {| image_make := body_make b;
     image_model := body_model b;
     image_year := body_year b;
     image_color :=
       JS.or_default
         (JS.or_opt (Some (body_color b)) (color vehicle))
         "silver" |}.

Definition generate_image_try (p : Principal) (b : GenerateImageBody)
  : Handler Response :=
  _ <- match validationResult b with
       | msg :: _ => respond (validation_error msg)
       | [] => ret tt
       end ;;
  found <- query (Vehicle_findOne
                    (generate_image_query p (body_vehicleId b))) ;;
  vehicle <- match found with
             | None => respond vehicle_not_found
             | Some v => ret v
             end ;;
  imageUrl <- await (generateVehicleImage (image_request b vehicle)) ;;
  let vehicle := set_imageUrl imageUrl vehicle in
  _ <- update (Vehicle_save vehicle) ;;
  _ <- update (AuditLog_create (generate_image_audit p b imageUrl)) ;;
  ret (image_generated (_id vehicle) (Vehicles.imageUrl vehicle)).

Definition generate_image_catch (message : string) : Response :=
  if JS.includes "quota" message || JS.includes "rate limit" message
  then rate_limit_error
  else internal_error "Failed to generate vehicle image".

Definition generate_image (p : Principal) (b : GenerateImageBody)
  (s : Store) : Response * Store :=
  try_catch (generate_image_try p b) generate_image_catch s.

(** The calls of image generation to the store, each of which may
    throw: [Some message] is the error it throws, [None] lets it
    through. *)
Record Faults := {
  findOne_fault : option string;
  save_fault : option string;
  create_fault : option string
}.

Definition no_faults : Faults :=
  {| findOne_fault := None; save_fault := None; create_fault := None |}.

(** An awaited call to the store: it throws, and does nothing, or goes
    through. *)
Definition attempt {A : Type} (fault : option string) (call : Handler A)
  : Handler A :=
  match fault with
  | Some message => throw message
  | None => call
  end.

(** The body of the [try] again, over a store whose calls may throw. *)
Definition generate_image_try_with (f : Faults) (p : Principal)
  (b : GenerateImageBody) : Handler Response :=
  _ <- match validationResult b with
       | msg :: _ => respond (validation_error msg)
       | [] => ret tt
       end ;;
  found <- attempt (findOne_fault f)
             (query (Vehicle_findOne
                       (generate_image_query p (body_vehicleId b)))) ;;
  vehicle <- match found with
             | None => respond vehicle_not_found
             | Some v => ret v
             end ;;
  imageUrl <- await (generateVehicleImage (image_request b vehicle)) ;;
  let vehicle := set_imageUrl imageUrl vehicle in
  _ <- attempt (save_fault f) (update (Vehicle_save vehicle)) ;;
  _ <- attempt (create_fault f)
         (update (AuditLog_create (generate_image_audit p b imageUrl))) ;;
  ret (image_generated (_id vehicle) (Vehicles.imageUrl vehicle)).

Definition generate_image_with (f : Faults) (p : Principal)
  (b : GenerateImageBody) (s : Store) : Response * Store :=
  try_catch (generate_image_try_with f p b) generate_image_catch s.

(** *** GET /metrics *)

(** A JavaScript [Set] of strings: insertion order, no duplicate. *)
Definition Set_has (x : string) (set : list string) : bool :=
  existsb (String.eqb x) set.

Definition Set_add (set : list string) (x : string) : list string :=
  if Set_has x set then set else set ++ [x].

Definition Set_from (l : list string) : list string :=
  fold_left Set_add l [].

(** [array.filter(Boolean)] on possibly undefined strings. *)
Fixpoint filter_Boolean (l : list (option string)) : list string :=
  match l with
  | [] => []
  | Some s :: rest =>
      if JS.truthy s then s :: filter_Boolean rest
      else filter_Boolean rest
  | None :: rest => filter_Boolean rest
  end.

Definition metrics_query (p : Principal) : Query :=
  {| q_id := None;
     q_or := Some (access_clauses p);
     q_isActive := None; q_ownerUserId := None; q_orgId := None;
     q_and := None |}.

(** [{ ...query, isActive: true }]. *)
Definition and_isActive (q : Query) : Query :=
  {| q_id := q_id q; q_or := q_or q; q_isActive := Some true;
     q_ownerUserId := q_ownerUserId q; q_orgId := q_orgId q;
     q_and := q_and q |}.

(** The constants the handler binds before it answers. *)
Record MetricsLocals := {
  l_totalCars : nat;
  l_activeCars : nat;
  l_uniqueUsers : list string;
  l_totalUsers : nat;
  l_activeUsers : nat
}.

Definition metrics_locals (p : Principal) (s : Store) : MetricsLocals :=
  let query := metrics_query p in
  let totalCars := Vehicle_countDocuments query s in
  let activeCars := Vehicle_countDocuments (and_isActive query) s in
  let vehicles := Vehicle_find query s in
  let uniqueUsers :=
    Set_from (filter_Boolean (map ownerUserId vehicles)) in
  let totalUsers := List.length uniqueUsers in
  let activeUsers := User_countActiveIn uniqueUsers s in
  {| l_totalCars := totalCars;
     l_activeCars := activeCars;
     l_uniqueUsers := uniqueUsers;
     l_totalUsers := totalUsers;
     l_activeUsers := activeUsers |}.

(** The literal [4.6]. *)
Definition placeholder_changePercentage : Q := (46 # 10)%Q.

Definition metrics_json (l : MetricsLocals) : MetricsData :=
  {| totalUsers := l_totalUsers l;
     totalCars := l_totalCars l;
     activeUsers := l_activeUsers l;
     changePercentage := placeholder_changePercentage |}.

Definition metrics (p : Principal) (s : Store) : Response :=
  metrics_data (metrics_json (metrics_locals p s)).

(** *** GET /clients *)

(** A JavaScript [Map] from strings: entries in insertion order,
    [set] on a present key replaces the value in place. *)
Definition Map_has {V : Type} (k : string) (m : list (string * V))
  : bool :=
  existsb (fun e => String.eqb (fst e) k) m.

Fixpoint Map_set {V : Type} (k : string) (v : V) (m : list (string * V))
  : list (string * V) :=
  match m with
  | [] => [(k, v)]
  | (k', v') :: rest =>
      if String.eqb k' k then (k, v) :: rest
      else (k', v') :: Map_set k v rest
  end.

Definition Map_values {V : Type} (m : list (string * V)) : list V :=
  map snd m.

Definition clients_query (orgId : string) : Query :=
  {| q_id := None; q_or := None; q_isActive := Some true;
     q_ownerUserId := None; q_orgId := Some orgId; q_and := None |}.

Definition opt_bind {A B : Type} (o : option A) (f : A -> option B)
  : option B :=
  match o with
  | Some x => f x
  | None => None
  end.

Definition registered_client (u : User) : Client :=
  let userId := user_id u in
  {| client_id := userId;
     client_name :=
       JS.or_default (opt_bind (profile u) profile_name) "Unknown";
     client_email := JS.or_default (email u) "";
     client_phone :=
       JS.or_default (opt_bind (profile u) profile_phone) "";
     client_type := registered |}.

Definition embedded_key (oi : OwnerInfo) : string :=
  "info_" ++ JS.interpolate (JS.or_opt (oi_phone oi) (oi_email oi)).

Definition embedded_client (name : string) (oi : OwnerInfo) : Client :=
  {| client_id := embedded_key oi;
     client_name := name;
     client_email := JS.or_default (oi_email oi) "";
     client_phone := JS.or_default (oi_phone oi) "";
     client_type := embedded |}.

(** The key and entry a vehicle contributes, if any: the branch
    taken by the body of the [forEach]. *)
Definition client_of (pv : Populated) : option (string * Client) :=
  match owner pv with
  | Some u => Some (user_id u, registered_client u)
  | None =>
      match ownerInfo (doc pv) with
      | Some oi =>
          match oi_name oi with
          | Some (String _ _ as name) =>
              Some (embedded_key oi, embedded_client name oi)
          | _ => None
          end
      | None => None
      end
  end.

(** One iteration of [vehicles.forEach]. *)
Definition clients_step (clientsMap : list (string * Client))
  (pv : Populated) : list (string * Client) :=
  match client_of pv with
  | Some (key, c) =>
      if Map_has key clientsMap then clientsMap
      else Map_set key c clientsMap
  | None => clientsMap
  end.

Definition build_clientsMap (vs : list Populated)
  : list (string * Client) :=
  fold_left clients_step vs [].

Definition clients_vehicles (orgId : string) (s : Store)
  : list Populated :=
  map (populate s) (Vehicle_find (clients_query orgId) s).

Definition clients (p : Principal) (s : Store) : Response :=
  match req_user_orgId p with
  | Some (String _ _ as orgId) =>
      let clients :=
        Map_values (build_clientsMap (clients_vehicles orgId s)) in
      clients_data clients (List.length clients)
  | _ => bad_request "Organization ID required"
  end.

(** *** GET /:vehicleId *)

Definition get_vehicle_query (p : Principal) (vehicleId : string)
  : Query :=
  {| q_id := Some vehicleId;
     q_or := Some (access_clauses p);
     q_isActive := None; q_ownerUserId := None; q_orgId := None;
     q_and := None |}.

Definition get_vehicle (p : Principal) (vehicleId : string) (s : Store)
  : Response :=
  match Vehicle_findOne (get_vehicle_query p vehicleId) s with
  | None => vehicle_not_found
  | Some vehicle => vehicle_data vehicle
  end.

(** *** GET / *)

(** [req.query]; [page] and [limit] hold what [parseInt] makes of a
    supplied parameter (a parameter that is not a number is outside
    the model). *)
Record ListParams := {
  page : option Z;
  limit : option Z;
  search : option string;
  ownerId : option string
}.

Definition default_to {A : Type} (d : A) (o : option A) : A :=
  match o with
  | Some x => x
  | None => d
  end.

Definition list_base_query (p : Principal) : Query :=
  {| q_id := None;
     q_or := Some (access_clauses p);
     q_isActive := Some true;
     q_ownerUserId := None; q_orgId := None; q_and := None |}.

(** The [if (ownerId)] block: the owner key is set, [$or] deleted,
    and the organization key set when the caller has one. *)
Definition filter_by_owner (ownerId : string) (orgId : option string)
  (q : Query) : Query :=
  {| q_id := q_id q;
     q_or := None;
     q_isActive := q_isActive q;
     q_ownerUserId := Some ownerId;
     q_orgId := if JS.truthy_opt orgId then orgId else q_orgId q;
     q_and := q_and q |}.

Definition search_clauses (search : string) : list Clause :=
  [RegexI Plate search; RegexI Make search; RegexI Model search;
   RegexI OwnerInfoName search].

(** The [if (search)] block: one [$or] pushed on [$and]. *)
Definition filter_by_search (search : string) (q : Query) : Query :=
  {| q_id := q_id q;
     q_or := q_or q;
     q_isActive := q_isActive q;
     q_ownerUserId := q_ownerUserId q;
     q_orgId := q_orgId q;
     q_and := Some (default_to [] (q_and q) ++ [search_clauses search]) |}.

Definition list_query (p : Principal) (r : ListParams) : Query :=
  let q := list_base_query p in
  let q := match ownerId r with
           | Some (String _ _ as o) =>
               filter_by_owner o (req_user_orgId p) q
           | _ => q
           end in
  match search r with
  | Some (String _ _ as t) => filter_by_search t q
  | _ => q
  end.

Definition booking_form_row (pv : Populated) : Row :=
  let vehicle := doc pv in
  BookingForm
    {| bf__id := _id vehicle;
       bf_id := _id vehicle;
       bf_make := make vehicle;
       bf_model := model vehicle;
       bf_year := year vehicle;
       bf_plate := plate vehicle |}.

Definition listing_row (pv : Populated) : Row :=
  let vehicle := doc pv in
  Listing
    {| row_id := _id vehicle;
       row_name :=
         JS.or_default
           (JS.or_opt
              (opt_bind (ownerInfo vehicle) oi_name)
              (opt_bind (opt_bind (owner pv) profile) profile_name))
           "N/A";
       row_registrationNo := JS.or_default (plate vehicle) "N/A";
       row_carType :=
         JS.or_default
           (Some (JS.trim (JS.or_default (make vehicle) "" ++ " "
                           ++ JS.or_default (model vehicle) "")))
           "N/A";
       row_email := JS.or_default (opt_bind (owner pv) email) "N/A";
       row_status :=
         if isActive vehicle
            && match owner pv with
               | Some u => user_isActive u
               | None => false
               end
         then "Active" else "Inactive";
       row_vehicleId := _id vehicle;
       row_ownerId := option_map user_id (owner pv) |}.

(** [Math.ceil(total / limit)]; [None] when the quotient is not
    finite ([limit] is zero). *)
Definition pages_of (total : nat) (limit : Z) : option Z :=
  if (limit =? 0)%Z then None
  else Some (- ((- Z.of_nat total) / limit))%Z.

(** The records of the requested page, [None] when the datastore
    refuses the cursor. *)
Definition list_page (q : Query) (page limit : Z) (s : Store)
  : option (list Vehicle) :=
  let skip := ((page - 1) * limit)%Z in
  option_map (cursor_limit limit)
    (cursor_skip skip (sort_createdAt_desc (Vehicle_find q s))).

Definition list_vehicles (p : Principal) (r : ListParams) (s : Store)
  : Response :=
  let page := default_to 1%Z (page r) in
  let limit := default_to 10%Z (limit r) in
  let query := list_query p r in
  match list_page query page limit s with
  | None => internal_error "Failed to retrieve vehicles"
  | Some found =>
      let vehicles := map (populate s) found in
      let total := Vehicle_countDocuments query s in
      let responseData :=
        if JS.truthy_opt (ownerId r)
        then map booking_form_row vehicles
        else map listing_row vehicles in
      vehicles_data responseData total page limit (pages_of total limit)
  end.

(** *** Vocabulary of the specification *)

(** The owner-or-organization match of the specification.  Two absent
    organizations are equal: the filter of a caller without
    organization asks for a null [orgId], which a vehicle without one
    has. *)
Definition has_access (p : Principal) (v : Vehicle) : Prop :=
  ownerUserId v = Some (req_user_id p) \/ orgId v = req_user_orgId p.

Definition has_access_b (p : Principal) (v : Vehicle) : bool :=
  opt_eqb (ownerUserId v) (Some (req_user_id p))
  || opt_eqb (orgId v) (req_user_orgId p).

(** The vehicles the listing selects, over all pages. *)
Definition listed (p : Principal) (r : ListParams) (s : Store)
  (v : Vehicle) : Prop :=
  In v (Vehicle_find (list_query p r) s).

(** The vehicle get-by-id answers with, for some id. *)
Definition resolved (p : Principal) (s : Store) (v : Vehicle) : Prop :=
  exists vehicleId, get_vehicle p vehicleId s = vehicle_data v.

(** The search of a request, when it has one. *)
Definition search_matches (search : option string) (v : Vehicle)
  : bool :=
  match search with
  | Some (String _ _ as t) => or_matches (search_clauses t) v
  | _ => true
  end.

(** [pv] is the first vehicle of [pvs] that contributes the key [k],
    and [c] is the entry built from it. *)
Definition first_seen (pvs : list Populated) (k : string) (c : Client)
  : Prop :=
  exists before pv after,
    pvs = before ++ pv :: after
    /\ client_of pv = Some (k, c)
    /\ forall pv', In pv' before ->
                   forall c', client_of pv' <> Some (k, c').

(** The vehicle a row of an answer stands for. *)
Definition row_vehicle_id (row : Row) : string :=
  match row with
  | BookingForm r => bf_id r
  | Listing r => row_vehicleId r
  end.

(** Newest first: the order of [.sort({ createdAt: -1 })]. *)
Definition newer_first (a b : Vehicle) : Prop :=
  (createdAt b <= createdAt a)%Z.

(** The phone-or-email of an embedded owner, as a key spells it: the
    phone when there is one, else the email, "undefined" when there is
    neither. *)
Definition phone_or_email (oi : OwnerInfo) : string :=
  match oi_phone oi with
  | Some (String a p) => String a p
  | _ =>
      match oi_email oi with
      | Some e => e
      | None => "undefined"
      end
  end.

(** The key of the specification for a vehicle of the roster: the id of
    its registered owning user, else "info_" and the phone-or-email of
    its named embedded owner. *)
Definition roster_key (pv : Populated) : option string :=
  match owner pv with
  | Some u => Some (user_id u)
  | None =>
      match ownerInfo (doc pv) with
      | Some oi =>
          if JS.truthy_opt (oi_name oi)
          then Some ("info_" ++ phone_or_email oi)%string
          else None
      | None => None
      end
  end.

(** The roster of an organization. *)
Definition roster (orgId : string) (s : Store) : list Client :=
  Map_values (build_clientsMap (clients_vehicles orgId s)).

End Routes.

(** [needle] occurs in [hay]. *)
Definition Substring (needle hay : string) : Prop :=
  exists before after : string,
    hay = (before ++ needle ++ after)%string.

End Vehicles.

(** ** Sample data *)

Module Samples.

Import Vehicles.

Definition lower (c : ascii) : ascii :=
  let n := nat_of_ascii c in
  if Nat.leb 65 n && Nat.leb n 90 then ascii_of_nat (n + 32) else c.

Fixpoint lowercase (s : string) : string :=
  match s with
  | EmptyString => EmptyString
  | String c rest => String (lower c) (lowercase rest)
  end.

(** A search engine for patterns without special characters: a
    case-insensitive substring test. *)
Definition literal_regex (pattern s : string) : bool :=
  JS.includes (lowercase pattern) (lowercase s).

Definition vehicle (id : string) (owner org : option string)
  (active : bool) (created : Z) : Vehicle :=
  {| _id := id; ownerUserId := owner; orgId := org; ownerInfo := None;
     make := Some "Toyota"; model := Some "Corolla"; year := Some "2019";
     plate := Some ("KDA " ++ id)%string; color := None; isActive := active;
     imageUrl := None; createdAt := created |}.

Definition walk_in (id : string) (org : option string)
  (name phone mail : option string) (created : Z) : Vehicle :=
  {| _id := id; ownerUserId := None; orgId := org;
     ownerInfo := Some {| oi_name := name; oi_email := mail;
                          oi_phone := phone |};
     make := Some "Mazda"; model := Some "Demio"; year := Some "2015";
     plate := None; color := Some "red"; isActive := true;
     imageUrl := None; createdAt := created |}.

Definition user (id : string) (name : option string) (active : bool)
  : User :=
  {| user_id := id; email := Some (id ++ "@example.com")%string;
     profile := Some {| profile_name := name; profile_phone := None |};
     user_isActive := active |}.

Definition alice : Principal :=
  {| req_user_id := "u1"; req_user_orgId := None |}.

Definition garage_admin : Principal :=
  {| req_user_id := "u9"; req_user_orgId := Some "g1" |}.

Definition store1 : Store :=
  {| vehicles :=
       [vehicle "v1" (Some "u1") None true 10;
        vehicle "v2" (Some "u1") None false 20;
        vehicle "v3" (Some "u2") (Some "g1") true 30;
        vehicle "v4" (Some "u2") (Some "g1") false 40;
        walk_in "v5" (Some "g1") (Some "Wanjiru") (Some "0700") None 50;
        walk_in "v6" (Some "g1") (Some "W. Kamau") (Some "0700") None 60;
        vehicle "v7" (Some "u2") (Some "g1") true 70];
     users := [user "u1" (Some "Alice") true; user "u2" None false];
     auditLog := [] |}.

(** [store1] with [v1] deactivated. *)
Definition store2 : Store :=
  {| vehicles :=
       [vehicle "v1" (Some "u1") None false 10;
        vehicle "v2" (Some "u1") None false 20;
        vehicle "v3" (Some "u2") (Some "g1") true 30;
        vehicle "v4" (Some "u2") (Some "g1") false 40;
        walk_in "v5" (Some "g1") (Some "Wanjiru") (Some "0700") None 50;
        walk_in "v6" (Some "g1") (Some "W. Kamau") (Some "0700") None 60;
        vehicle "v7" (Some "u2") (Some "g1") true 70];
     users := [user "u1" (Some "Alice") true; user "u2" None false];
     auditLog := [] |}.

(** A garage with walk-in owners of different phones, one phone twice,
    one owner with an email only, and a registered owner twice. *)
Definition store3 : Store :=
  {| vehicles :=
       [walk_in "w1" (Some "g1") (Some "Wanjiru") (Some "0700") None 10;
        walk_in "w2" (Some "g1") (Some "Kamau") (Some "0711") None 20;
        vehicle "w3" (Some "u2") (Some "g1") true 30;
        walk_in "w4" (Some "g1") (Some "W. Kamau") (Some "0700")
          (Some "w@example.com") 40;
        walk_in "w5" (Some "g1") (Some "Otieno") None
          (Some "o@example.com") 50;
        vehicle "w6" (Some "u2") (Some "g1") true 60];
     users := [user "u2" (Some "Bob") true];
     auditLog := [] |}.

Definition no_params : ListParams :=
  {| page := None; limit := None; search := None; ownerId := None |}.

Definition body (id mk mdl yr : string) : GenerateImageBody :=
  {| body_vehicleId := id; body_make := mk; body_model := mdl;
     body_year := yr; body_color := "" |}.

(** A provider out of quota, and one that answers. *)
Definition provider_rate_limited (_ : ImageRequest) : ProviderResult :=
  Rejected "429: rate limit reached for images".

Definition provider_down (_ : ImageRequest) : ProviderResult :=
  Rejected "Rate Limit: connect ECONNREFUSED".

Definition provider_ok (r : ImageRequest) : ProviderResult :=
  Resolved ("https://img.example/" ++ image_make r ++ ".png")%string.

(** Twelve active vehicles of one owner, created at 1 .. 12. *)
Definition fleet : list Vehicle :=
  map (fun n => vehicle (String "f" (String (ascii_of_nat (96 + n)) ""))
                  (Some "u1") None true (Z.of_nat n))
      (seq 1 12).

Definition store12 : Store :=
  {| vehicles := fleet; users := [user "u1" (Some "Alice") true];
     auditLog := [] |}.

End Samples.

(** * Properties *)

(** ** Strings *)

Module JSFacts.

Lemma prefix_app (needle hay : string) :
  String.prefix needle hay = true <->
  exists after : string, hay = (needle ++ after)%string.
Proof.
  revert needle; induction hay as [|d hay IH]; intros [|c needle]; simpl.
  - split; [intros _; now exists EmptyString | reflexivity].
  - split; [discriminate | intros [after H]; discriminate].
  - split; [intros _; now exists (String d hay) | reflexivity].
  - destruct (ascii_dec c d) as [->|ne].
    + rewrite IH; split; intros [after H]; exists after.
      * now rewrite H.
      * now inversion H.
    + split; [discriminate|].
      intros [after H]; inversion H; congruence.
Qed.

(** [includes] decides the occurrence of [needle] in [hay]. *)
Lemma includes_Substring (needle hay : string) :
  JS.includes needle hay = true <-> Vehicles.Substring needle hay.
Proof.
  unfold Vehicles.Substring.
  induction hay as [|d hay IH].
  - change (JS.includes needle EmptyString)
      with (String.prefix needle EmptyString || false).
    rewrite orb_false_r, prefix_app; split.
    + intros [after H]; now exists EmptyString, after.
    + intros [[|b before] [after H]]; [now exists after|now simpl in H].
  - change (JS.includes needle (String d hay))
      with (String.prefix needle (String d hay) || JS.includes needle hay).
    rewrite orb_true_iff, prefix_app, IH; split.
    + intros [[after H]|[before [after H]]].
      * now exists EmptyString, after.
      * exists (String d before), after; simpl; now rewrite H.
    + intros [[|b before] [after H]].
      * left; now exists after.
      * right; exists before, after; simpl in H; now inversion H.
Qed.

Lemma includes_false (needle hay : string) :
  JS.includes needle hay = false <-> ~ Vehicles.Substring needle hay.
Proof.
  rewrite <- includes_Substring.
  destruct (JS.includes needle hay); split; intros; easy.
Qed.

End JSFacts.

(** ** The Booking model *)

Module BookingFacts.

Import Booking.

Lemma mem_In (s : string) (l : list string) : mem s l = true <-> In s l.
Proof.
  unfold mem; rewrite existsb_exists; split.
  - intros [x [Hin Heq]]; apply String.eqb_eq in Heq; now subst.
  - intros Hin; exists s; split; [assumption | apply String.eqb_refl].
Qed.

Lemma check_required_nil {A : Type} (path : string) (o : option A) :
  check_required path o = [] <-> o <> None.
Proof. destruct o; simpl; split; easy. Qed.

Lemma check_required_string_nil (path : string) (o : option string) :
  check_required_string path o = [] <-> JS.truthy_opt o = true.
Proof.
  unfold check_required_string; destruct (JS.truthy_opt o); split; easy.
Qed.

Lemma check_enum_nil (path : string) (values : list string)
  (o : option string) :
  check_enum path values o = [] <->
  (forall s, o = Some s -> In s values).
Proof.
  destruct o as [s|]; simpl.
  - destruct (mem s values) eqn:E; split; try easy.
    + intros _ s' [= <-]; now apply mem_In.
    + intros H; specialize (H s eq_refl); apply mem_In in H; congruence.
  - split; [intros _ s; discriminate | reflexivity].
Qed.

Lemma check_min_nil (path : string) (m : Z) (o : option Z) :
  check_min path m o = [] <-> (forall v, o = Some v -> (m <= v)%Z).
Proof.
  destruct o as [v|]; simpl.
  - destruct (Z.leb_spec m v); split; try easy.
    + intros _ v' [= <-]; assumption.
    + intros H0; specialize (H0 v eq_refl); lia.
  - split; [intros _ v; discriminate | reflexivity].
Qed.

Lemma check_maxLength_nil (path : string) (n : nat) (o : option JS.text) :
  check_maxLength path n o = [] <->
  (forall s, o = Some s -> (List.length s <= n)%nat).
Proof.
  destruct o as [s|]; simpl.
  - destruct (Nat.leb_spec (List.length s) n); split; try easy.
    + intros _ s' [= <-]; assumption.
    + intros H0; specialize (H0 s eq_refl); lia.
  - split; [intros _ s; discriminate | reflexivity].
Qed.

Lemma with_default_Some {A : Type} (d : A) (o : option A) :
  with_default d o <> None.
Proof. destruct o; discriminate. Qed.

Lemma with_default_forall {A : Type} (d : A) (o : option A)
  (P : A -> Prop) :
  P d ->
  ((forall x, with_default d o = Some x -> P x) <->
   (forall x, o = Some x -> P x)).
Proof.
  intros Hd; destruct o as [y|]; simpl; split; intros H x E;
    try discriminate; auto.
  inversion E; subst; assumption.
Qed.

Lemma trimmed_forall (o : option JS.text) (P : JS.text -> Prop) :
  (forall s, trimmed o = Some s -> P s) <->
  (forall s, o = Some s -> P (JS.trim_text s)).
Proof.
  destruct o as [y|]; simpl; split; intros H s E; try discriminate.
  - inversion E; subst; now apply H.
  - inversion E; subst; now apply H.
Qed.

Lemma required_enum (o : option string) (values : list string) :
  ~ In EmptyString values ->
  (JS.truthy_opt o = true /\ (forall s, o = Some s -> In s values)) <->
  (exists s, o = Some s /\ In s values).
Proof.
  intros Hne; split.
  - intros [Ht H]; destruct o as [s|]; [|discriminate].
    exists s; auto.
  - intros [s [-> Hin]]; split.
    + destruct s; [contradiction | reflexivity].
    + now intros s' [= <-].
Qed.

Lemma app_nil_iff {A : Type} (l l' : list A) :
  l ++ l' = [] <-> l = [] /\ l' = [].
Proof.
  split; [apply app_eq_nil | intros [-> ->]; reflexivity].
Qed.

(** Validation accepts exactly the valid objects. *)
Lemma accepted_iff (obj : t) : accepted obj = true <-> valid obj.
Proof.
  unfold accepted, valid.
  assert (E : forall l : list ValidationError,
             match l with [] => true | _ :: _ => false end = true
             <-> l = []) by (intros [|? ?]; split; easy).
  rewrite E; unfold validate.
  rewrite !app_nil_iff.
  rewrite !check_required_nil, check_required_string_nil,
    !check_enum_nil, check_min_nil, !check_maxLength_nil.
  cbn [construct garageId serviceType scheduledDate duration status notes
         garageNotes source].
  rewrite (with_default_forall duration_default (duration obj)
             (fun d => (duration_min <= d)%Z))
    by (unfold duration_min, duration_default; lia).
  rewrite (with_default_forall "pending" (status obj)
             (fun s => In s status_enum)) by (simpl; auto).
  rewrite (with_default_forall "app" (source obj)
             (fun s => In s source_enum)) by (simpl; auto).
  rewrite !(trimmed_forall _
              (fun s : JS.text => (List.length s <= notes_maxLength)%nat)).
  pose proof (with_default_Some duration_default (duration obj)) as Hd.
  pose proof (required_enum (serviceType obj) serviceType_enum) as Hr.
  assert (Hne : ~ In EmptyString serviceType_enum)
    by (simpl; intuition discriminate).
  specialize (Hr Hne).
  tauto.
Qed.

Lemma rejected_iff (obj : t) : rejected obj = true <-> ~ valid obj.
Proof.
  unfold rejected; rewrite <- accepted_iff.
  destruct (accepted obj); simpl; split; easy.
Qed.

(** C8, as stated, fails twice: a [notes] string of length 1001 that
    ends in a blank is trimmed to 1000 characters before validation
    and the booking is accepted; and a booking within the bounds that
    carries a garage reference but no [serviceType] is rejected. *)
Lemma booking_bounds_counterexample :
  (let obj := make (Some "g1") (Some "repair") (Some 0%Z) (Some 60%Z) None
                (Some (repeat 97%N 1000 ++ [32%N])) None None in
   option_map (@List.length N) (notes obj) = Some 1001%nat
   /\ accepted obj = true)
  /\
  (let obj := make (Some "g1") None (Some 0%Z) (Some 60%Z) None
                (Some (JS.text_of_string "brake check"))
                (Some (JS.text_of_string "bay 2")) None in
   garageId obj = Some "g1"
   /\ duration obj = Some 60%Z
   /\ option_map (@List.length N) (notes obj) = Some 11%nat
   /\ option_map (@List.length N) (garageNotes obj) = Some 5%nat
   /\ accepted obj = false).
Proof.
  split; cbv zeta; repeat split; vm_compute; reflexivity.
Qed.

(** C8 (amended). A booking whose duration is below 15 (so one of 10)
    is rejected; a booking whose [notes] or [garageNotes] is longer
    than 1000 code units once trimmed is rejected; and a booking is
    accepted when it carries a garage reference, a [serviceType] of
    the closed set and a scheduled date, its duration (when given) is
    at least 15, its notes are within 1000 code units once trimmed,
    and its status and source (when given) are of their enums. *)
Theorem booking_validation_bounds (obj : t) :
  (forall d, duration obj = Some d -> (d < 15)%Z -> rejected obj = true)
  /\ (forall s, notes obj = Some s \/ garageNotes obj = Some s ->
                (1000 < List.length (JS.trim_text s))%nat ->
                rejected obj = true)
  /\ (garageId obj <> None ->
      (exists s, serviceType obj = Some s /\ In s serviceType_enum) ->
      scheduledDate obj <> None ->
      (forall d, duration obj = Some d -> (15 <= d)%Z) ->
      (forall s, notes obj = Some s ->
                 (List.length (JS.trim_text s) <= 1000)%nat) ->
      (forall s, garageNotes obj = Some s ->
                 (List.length (JS.trim_text s) <= 1000)%nat) ->
      (forall s, status obj = Some s -> In s status_enum) ->
      (forall s, source obj = Some s -> In s source_enum) ->
      accepted obj = true).
Proof.
  split; [|split].
  - intros d Hd Hlt; apply rejected_iff.
    intros (_ & _ & _ & Hmin & _).
    specialize (Hmin d Hd); unfold duration_min in Hmin; lia.
  - intros s Hs Hlen; apply rejected_iff.
    intros (_ & _ & _ & _ & _ & Hn & Hg & _).
    unfold notes_maxLength in *.
    destruct Hs as [Hs|Hs];
      [specialize (Hn s Hs) | specialize (Hg s Hs)]; lia.
  - intros; apply accepted_iff; unfold valid; repeat split; assumption.
Qed.

Lemma booking_validation_bounds_witness :
  rejected (make (Some "g1") (Some "repair") (Some 0%Z) (Some 10%Z)
              None None None None) = true
  /\ rejected (make (Some "g1") (Some "repair") (Some 0%Z) (Some 60%Z)
                 None (Some (repeat 97%N 1001)) None None) = true
  /\ rejected (make (Some "g1") (Some "repair") (Some 0%Z) (Some 60%Z)
                 None None (Some (repeat 26085%N 1001)) None) = true
  /\ accepted (make (Some "g1") (Some "repair") (Some 0%Z) (Some 15%Z)
                 (Some "confirmed") (Some (repeat 97%N 1000 ++ [160%N]))
                 (Some (repeat 26085%N 400)) (Some "walk_in")) = true.
Proof.
  split; [|split; [|split]].
  - apply (proj1 (booking_validation_bounds _) 10%Z);
      [reflexivity | lia].
  - apply (proj1 (proj2 (booking_validation_bounds _))
             (repeat 97%N 1001));
      [left; reflexivity | vm_compute; lia].
  - apply (proj1 (proj2 (booking_validation_bounds _))
             (repeat 26085%N 1001));
      [right; reflexivity | vm_compute; lia].
  - apply (proj2 (proj2 (booking_validation_bounds _))).
    + discriminate.
    + exists "repair"; split; [reflexivity | simpl; auto].
    + discriminate.
    + intros d [= <-]; lia.
    + intros s [= <-]; vm_compute; lia.
    + intros s [= <-]; vm_compute; lia.
    + intros s [= <-]; simpl; auto.
    + intros s [= <-]; simpl; auto.
Defined.

(** A text is measured in code units and trimmed of every white space
    of the language: a no-break space at the end does not count, and
    400 ideographs are 400 long. *)
Example booking_notes_code_units :
  List.length (JS.trim_text (repeat 97%N 1000 ++ [160%N])) = 1000%nat
  /\ List.length (JS.trim_text ([12288%N; 65279%N] ++ repeat 26085%N 400
                                ++ [8233%N; 10%N])) = 400%nat
  /\ List.length (JS.trim_text (repeat 97%N 500 ++ [32%N]
                                ++ repeat 97%N 500)) = 1001%nat.
Proof. repeat split; vm_compute; reflexivity. Qed.

(** C9. [isUpcoming] holds exactly when the scheduled timestamp is
    strictly after now and the status is not "cancelled" (so it is
    false once the date has passed, whatever the status); [isPast]
    holds exactly when the scheduled timestamp is before now, and
    depends on nothing else. *)
Theorem booking_virtuals (now : Z) (doc : t) :
  (isUpcoming now doc = true <->
   (exists d, scheduledDate doc = Some d /\ (now < d)%Z)
   /\ status doc <> Some "cancelled")
  /\ (forall d, scheduledDate doc = Some d -> (d <= now)%Z ->
                isUpcoming now doc = false)
  /\ (isPast now doc = true <->
      exists d, scheduledDate doc = Some d /\ (d < now)%Z)
  /\ (forall doc', scheduledDate doc' = scheduledDate doc ->
                   isPast now doc' = isPast now doc).
Proof.
  unfold isUpcoming, isPast; split; [|split; [|split]].
  - destruct (scheduledDate doc) as [d|].
    + rewrite andb_true_iff, negb_true_iff; split.
      * intros [Hd Hs]; split.
        -- exists d; split; [reflexivity | lia].
        -- intros E; rewrite E in Hs; discriminate.
      * intros [[d' [[= <-] Hd]] Hs]; split; [lia|].
        destruct (status doc) as [s|]; [|reflexivity].
        destruct (String.eqb_spec s "cancelled"); [subst; now elim Hs|easy].
    + split; [discriminate | intros [[d [[=] _]] _]].
  - intros d -> Hd.
    replace (now <? d)%Z with false by lia; reflexivity.
  - destruct (scheduledDate doc) as [d|].
    + split.
      * intros H; exists d; split; [reflexivity | lia].
      * intros [d' [[= <-] Hd]]; lia.
    + split; [discriminate | intros [d [[=] _]]].
  - intros doc' ->; reflexivity.
Qed.

Lemma booking_virtuals_witness :
  isUpcoming 1000 (make (Some "g1") (Some "repair") (Some 900%Z) None
                     (Some "pending") None None None) = false
  /\ isUpcoming 1000 (make (Some "g1") (Some "repair") (Some 1500%Z) None
                        (Some "pending") None None None) = true
  /\ isPast 1000 (make (Some "g1") (Some "repair") (Some 900%Z) None
                    (Some "cancelled") None None None) = true.
Proof.
  split; [|split].
  - apply (proj1 (proj2 (booking_virtuals 1000 _)) 900%Z);
      [reflexivity | lia].
  - apply (proj1 (booking_virtuals 1000 _)); split.
    + exists 1500%Z; split; [reflexivity | lia].
    + discriminate.
  - apply (proj1 (proj2 (proj2 (booking_virtuals 1000 _)))).
    exists 900%Z; split; [reflexivity | lia].
Defined.

(** C10. A booking that validation accepts carries a [serviceType]
    of the closed set [inspection, repair, maintenance, diagnostic];
    a booking without a [serviceType], or with one outside the set,
    is rejected. *)
Theorem booking_serviceType_required (obj : t) :
  (accepted obj = true ->
   exists s, serviceType obj = Some s
             /\ (s = "inspection" \/ s = "repair" \/ s = "maintenance"
                 \/ s = "diagnostic"))
  /\ (serviceType obj = None -> rejected obj = true)
  /\ (forall s, serviceType obj = Some s ->
                s <> "inspection" -> s <> "repair" ->
                s <> "maintenance" -> s <> "diagnostic" ->
                rejected obj = true).
Proof.
  split; [|split].
  - intros H; apply accepted_iff in H.
    destruct H as (_ & [s [Hs Hin]] & _).
    exists s; split; [assumption|].
    simpl in Hin; intuition.
  - intros Hs; apply rejected_iff.
    intros (_ & [s [Hs' _]] & _); congruence.
  - intros s Hs H1 H2 H3 H4; apply rejected_iff.
    intros (_ & [s' [Hs' Hin]] & _).
    rewrite Hs in Hs'; inversion Hs'; subst s'.
    simpl in Hin; intuition congruence.
Qed.

Lemma booking_serviceType_required_witness :
  rejected (make (Some "g1") None (Some 0%Z) (Some 60%Z)
              None None None None) = true
  /\ rejected (make (Some "g1") (Some "towing") (Some 0%Z) (Some 60%Z)
                 None None None None) = true
  /\ exists s,
       serviceType (make (Some "g1") (Some "diagnostic") (Some 0%Z) None
                      None None None None) = Some s
       /\ (s = "inspection" \/ s = "repair" \/ s = "maintenance"
           \/ s = "diagnostic").
Proof.
  split; [|split].
  - apply (proj1 (proj2 (booking_serviceType_required _))); reflexivity.
  - apply (proj2 (proj2 (booking_serviceType_required _)) "towing");
      [reflexivity | discriminate ..].
  - apply (proj1 (booking_serviceType_required _)); reflexivity.
Defined.

End BookingFacts.

(** ** The vehicle routes *)

Module VehiclesFacts.

Import Vehicles.

Lemma opt_eqb_eq (a b : option string) : opt_eqb a b = true <-> a = b.
Proof.
  destruct a as [x|], b as [y|]; simpl; split; try easy.
  - intros H; apply String.eqb_eq in H; now subst.
  - intros [= ->]; apply String.eqb_refl.
Qed.

Lemma has_access_b_iff (p : Principal) (v : Vehicle) :
  has_access_b p v = true <-> has_access p v.
Proof.
  unfold has_access_b, has_access.
  now rewrite orb_true_iff, !opt_eqb_eq.
Qed.

(** Documents with distinct ids are told apart by their id. *)
Lemma unique_id (l : list Vehicle) (a b : Vehicle) :
  NoDup (map _id l) -> In a l -> In b l -> _id a = _id b -> a = b.
Proof.
  induction l as [|x l IH]; simpl; [easy|].
  intros Hnd Ha Hb E; inversion Hnd as [|? ? Hx Hl]; subst.
  destruct Ha as [->|Ha], Hb as [->|Hb]; auto.
  - elim Hx; rewrite E; now apply in_map.
  - elim Hx; rewrite <- E; now apply in_map.
Qed.

(** Case analysis on the members of a list given by its elements. *)
Ltac each_member H :=
  simpl in H;
  repeat (destruct H as [<-|H]);
  try contradiction.

Section Facts.

Variable regex_test : string -> string -> bool.

Abbreviation matches := (Vehicles.matches regex_test).
Abbreviation or_matches := (Vehicles.or_matches regex_test).
Abbreviation Vehicle_find := (Vehicles.Vehicle_find regex_test).
Abbreviation Vehicle_findOne := (Vehicles.Vehicle_findOne regex_test).
Abbreviation listed := (Vehicles.listed regex_test).
Abbreviation resolved := (Vehicles.resolved regex_test).
Abbreviation get_vehicle := (Vehicles.get_vehicle regex_test).
Abbreviation search_matches := (Vehicles.search_matches regex_test).

Lemma access_clauses_matches (p : Principal) (v : Vehicle) :
  or_matches (access_clauses p) v = has_access_b p v.
Proof.
  unfold Vehicles.or_matches, access_clauses, has_access_b; simpl.
  now rewrite orb_false_r.
Qed.

Lemma get_vehicle_query_matches (p : Principal) (id : string)
  (v : Vehicle) :
  matches (get_vehicle_query p id) v = true <->
  _id v = id /\ has_access p v.
Proof.
  unfold Vehicles.matches, get_vehicle_query.
  cbn [q_id q_or q_isActive q_ownerUserId q_orgId q_and
         Vehicles.key_matches].
  rewrite !andb_true_r, andb_true_iff, access_clauses_matches.
  now rewrite String.eqb_eq, has_access_b_iff.
Qed.

Lemma find_In (q : Query) (s : Store) (v : Vehicle) :
  In v (Vehicle_find q s) <-> In v (vehicles s) /\ matches q v = true.
Proof. apply filter_In. Qed.

(** What get-by-id resolves, in a store with distinct ids. *)
Lemma resolved_iff (p : Principal) (s : Store) (v : Vehicle) :
  NoDup (map _id (vehicles s)) ->
  (resolved p s v <-> In v (vehicles s) /\ has_access p v).
Proof.
  intros Hnd; unfold Vehicles.resolved, Vehicles.get_vehicle,
                Vehicles.Vehicle_findOne; split.
  - intros [id H].
    destruct (find _ _) as [w|] eqn:E; [|discriminate].
    inversion H; subst w.
    apply find_some in E; destruct E as [Hin Hm].
    apply get_vehicle_query_matches in Hm; tauto.
  - intros [Hin Hacc]; exists (_id v).
    destruct (find _ _) as [w|] eqn:E.
    + apply find_some in E; destruct E as [Hw Hm].
      apply get_vehicle_query_matches in Hm; destruct Hm as [Hid _].
      now rewrite (unique_id _ w v Hnd Hw Hin Hid).
    + exfalso.
      pose proof (find_none _ _ E v Hin) as Hn.
      assert (Hm : matches (get_vehicle_query p (_id v)) v = true)
        by (apply get_vehicle_query_matches; auto).
      congruence.
Qed.

Lemma search_filter_matches (q : Query) (t : string) (v : Vehicle) :
  q_and q = None ->
  matches (filter_by_search t q) v =
  matches q v && or_matches (search_clauses t) v.
Proof.
  intros E; unfold Vehicles.matches, filter_by_search; simpl.
  rewrite E; simpl; now rewrite !andb_true_r.
Qed.

(** The filter of a listing, by its two optional parameters. *)
Lemma list_query_matches (p : Principal) (r : ListParams) (v : Vehicle) :
  matches (list_query p r) v =
  (match ownerId r with
   | Some (String _ _ as o) =>
       opt_eqb (ownerUserId v) (Some o)
       && match req_user_orgId p with
          | Some (String _ _ as g) => opt_eqb (orgId v) (Some g)
          | _ => true
          end
   | _ => has_access_b p v
   end)
  && isActive v
  && search_matches (search r) v.
Proof.
  assert (Hb : forall b, Bool.eqb b true = b) by (now intros []).
  unfold list_query, Vehicles.search_matches.
  destruct (ownerId r) as [[|c o]|], (search r) as [[|d t]|];
    try rewrite search_filter_matches by reflexivity;
    try (f_equal; []);
    unfold Vehicles.matches, filter_by_owner, list_base_query;
    cbn [q_id q_or q_isActive q_ownerUserId q_orgId q_and
           Vehicles.key_matches];
    rewrite ?access_clauses_matches, ?Hb, ?andb_true_r, ?andb_true_l;
    try reflexivity;
    destruct (req_user_orgId p) as [[|e g]|];
    cbn [JS.truthy_opt JS.truthy Vehicles.key_matches];
    rewrite ?andb_true_r;
    destruct (opt_eqb (ownerUserId v) (Some (String c o))),
      (isActive v); simpl; try reflexivity;
    now rewrite ?andb_true_r, ?andb_false_r.
Qed.

(** C1 (amended). In a store with distinct ids, get-by-id answers
    with a vehicle exactly when the owner-or-organization match
    holds for it; the listing without an explicit [ownerId] selects
    a vehicle exactly when the match holds, the vehicle is active
    and it passes the search, when there is one. *)
Theorem vehicle_visibility (p : Principal) (s : Store) (v : Vehicle) :
  NoDup (map _id (vehicles s)) ->
  (resolved p s v <-> In v (vehicles s) /\ has_access p v)
  /\ (forall r,
         JS.truthy_opt (ownerId r) = false ->
         (listed p r s v <->
          In v (vehicles s) /\ has_access p v /\ isActive v = true
          /\ search_matches (search r) v = true)).
Proof.
  intros Hnd; split; [now apply resolved_iff|].
  intros r Ho; unfold Vehicles.listed.
  rewrite find_In, list_query_matches, !andb_true_iff.
  destruct (ownerId r) as [[|c o]|]; try discriminate;
    rewrite has_access_b_iff; tauto.
Qed.

(** C5 (amended). With an explicit [ownerId], the [$or] of the
    access filter is removed and the listing selects exactly the
    active vehicles whose owning user is that [ownerId], that
    belong to the caller's organization when the caller has one,
    and that pass the search, when there is one. *)
Theorem listing_owner_filter (p : Principal) (r : ListParams)
  (s : Store) (o : string) (v : Vehicle) :
  ownerId r = Some o ->
  o <> EmptyString ->
  q_or (list_query p r) = None
  /\ (listed p r s v <->
      In v (vehicles s)
      /\ ownerUserId v = Some o
      /\ (forall g, req_user_orgId p = Some g -> g <> EmptyString ->
                    orgId v = Some g)
      /\ isActive v = true
      /\ search_matches (search r) v = true).
Proof.
  intros Ho Hne; split.
  - unfold list_query; rewrite Ho.
    destruct o as [|c o]; [now elim Hne|].
    now destruct (search r) as [[|d t]|].
  - unfold Vehicles.listed.
    rewrite find_In, list_query_matches, Ho.
    destruct o as [|c o]; [now elim Hne|].
    cbv beta iota; rewrite !andb_true_iff, opt_eqb_eq.
    destruct (req_user_orgId p) as [[|e g]|].
    + intuition (try discriminate; congruence).
    + rewrite opt_eqb_eq; split.
      * intros (Hin & ((Hu & Hg) & Ha) & Hs); repeat split; auto.
        now intros g' [= <-] _.
      * intros (Hin & Hu & Hg & Ha & Hs); repeat split; auto.
        apply Hg; [reflexivity | discriminate].
    + intuition (try discriminate; congruence).
Qed.

(** *** POST /generate-image *)

Variable generateVehicleImage : ImageRequest -> ProviderResult.

Abbreviation generate_image :=
  (Vehicles.generate_image regex_test generateVehicleImage).

(** The handler, with the monad unfolded. *)
Lemma generate_image_cases (p : Principal) (b : GenerateImageBody)
  (s : Store) :
  generate_image p b s =
  match validationResult b with
  | msg :: _ => (validation_error msg, s)
  | [] =>
      match Vehicle_findOne (generate_image_query p (body_vehicleId b)) s with
      | None => (vehicle_not_found, s)
      | Some v =>
          match generateVehicleImage (image_request b v) with
          | Rejected message => (generate_image_catch message, s)
          | Resolved url =>
              (image_generated (_id v) (Some url),
               AuditLog_create (generate_image_audit p b url)
                 (Vehicle_save (set_imageUrl url v) s))
          end
      end
  end.
Proof.
  unfold Vehicles.generate_image, try_catch, Vehicles.generate_image_try,
    bind, query, respond, ret, update.
  destruct (validationResult b) as [|msg rest]; [|reflexivity].
  destruct (Vehicle_findOne _ s) as [v|]; [|reflexivity].
  unfold await.
  destruct (generateVehicleImage (image_request b v)); reflexivity.
Qed.

(** No document with the id passes the access filter: the lookup finds
    nothing. *)
Lemma findOne_no_access (p : Principal) (id : string) (s : Store) :
  (forall v, In v (vehicles s) -> _id v = id -> ~ has_access p v) ->
  Vehicle_findOne (generate_image_query p id) s = None.
Proof.
  intros H; unfold Vehicles.Vehicle_findOne.
  destruct (find _ _) as [w|] eqn:E; [|reflexivity].
  apply find_some in E; destruct E as [Hin Hm].
  apply (get_vehicle_query_matches p id w) in Hm.
  destruct Hm as [Hid Hacc]; elim (H w Hin Hid Hacc).
Qed.

(** C2 (amended). When no vehicle with the requested id passes the
    owner-or-organization match (the id does not exist, or the vehicle
    is not the caller's), the store is left as it was: no vehicle
    record changes and no audit entry is written; the answer is the
    not-found error when the request passes validation, and the
    validation error of the first failing field when it does not. *)
Theorem generate_image_inaccessible (p : Principal) (b : GenerateImageBody)
  (s : Store) :
  (forall v, In v (vehicles s) -> _id v = body_vehicleId b ->
             ~ has_access p v) ->
  snd (generate_image p b s) = s
  /\ (validationResult b = [] ->
      fst (generate_image p b s) = vehicle_not_found
      /\ status_code (fst (generate_image p b s)) = 404%Z)
  /\ (forall msg rest, validationResult b = msg :: rest ->
                       fst (generate_image p b s) = validation_error msg).
Proof.
  intros H; rewrite generate_image_cases.
  rewrite (findOne_no_access p _ s H).
  destruct (validationResult b) as [|msg rest]; simpl.
  - repeat split; intros; discriminate.
  - split; [reflexivity|]; split; [discriminate|].
    now intros msg' rest' [= <- _].
Qed.

(** C3. When the request passes validation, the vehicle is resolved and
    the provider fails, the store is left as it was; the answer is the
    rate-limit error (429) when the message of the failure contains
    "quota" or "rate limit", and an internal error (500) otherwise. *)
Theorem generate_image_provider_failure (p : Principal)
  (b : GenerateImageBody) (s : Store) (v : Vehicle) (message : string) :
  validationResult b = [] ->
  Vehicle_findOne (generate_image_query p (body_vehicleId b)) s = Some v ->
  generateVehicleImage (image_request b v) = Rejected message ->
  snd (generate_image p b s) = s
  /\ (Substring "quota" message \/ Substring "rate limit" message ->
      fst (generate_image p b s) = rate_limit_error
      /\ status_code (fst (generate_image p b s)) = 429%Z)
  /\ (~ Substring "quota" message -> ~ Substring "rate limit" message ->
      status_code (fst (generate_image p b s)) = 500%Z).
Proof.
  intros Hv Hf Hg; rewrite generate_image_cases, Hv, Hf, Hg.
  unfold generate_image_catch; cbn [fst snd].
  split; [reflexivity|]; split.
  - intros H.
    assert (E : JS.includes "quota" message
                || JS.includes "rate limit" message = true).
    { apply orb_true_iff.
      destruct H as [H|H]; [left|right];
        now apply JSFacts.includes_Substring. }
    now rewrite E.
  - intros H1 H2.
    apply JSFacts.includes_false in H1, H2.
    now rewrite H1, H2.
Qed.

(** *** GET /metrics *)

Abbreviation metrics_locals := (Vehicles.metrics_locals regex_test).
Abbreviation metrics := (Vehicles.metrics regex_test).

Lemma Set_has_In (x : string) (set : list string) :
  Set_has x set = true <-> In x set.
Proof.
  unfold Set_has; rewrite existsb_exists; split.
  - intros [y [Hin E]]; apply String.eqb_eq in E; now subst.
  - intros Hin; exists x; split; [assumption | apply String.eqb_refl].
Qed.

(** [new Set(array)] holds each element of the array once. *)
Lemma Set_from_spec (l acc : list string) :
  NoDup acc ->
  NoDup (fold_left Set_add l acc)
  /\ forall x, In x (fold_left Set_add l acc) <-> In x acc \/ In x l.
Proof.
  revert acc; induction l as [|y l IH]; intros acc Hnd; simpl.
  - split; [assumption | intros x; tauto].
  - assert (Hnd' : NoDup (Set_add acc y)).
    { unfold Set_add; destruct (Set_has y acc) eqn:E; [assumption|].
      apply NoDup_app; [assumption | repeat constructor; auto |].
      intros z Hz [<-|[]].
      apply Set_has_In in Hz; congruence. }
    destruct (IH _ Hnd') as [H1 H2]; split; [assumption|].
    intros x; rewrite H2; unfold Set_add.
    destruct (Set_has y acc) eqn:E.
    + apply Set_has_In in E; intuition (subst; auto).
    + rewrite in_app_iff; simpl; tauto.
Qed.

Lemma filter_Boolean_In (l : list (option string)) (u : string) :
  In u (filter_Boolean l) <-> u <> EmptyString /\ In (Some u) l.
Proof.
  induction l as [|[x|] l IH]; simpl.
  - tauto.
  - destruct x as [|c x]; simpl; rewrite IH.
    + intuition congruence.
    + split.
      * intros [<-|[H1 H2]]; [split; [discriminate | auto] | auto].
      * intros [H1 [[= ->]|H2]]; auto.
  - rewrite IH; intuition discriminate.
Qed.

Lemma metrics_query_matches (p : Principal) (v : Vehicle) :
  matches (metrics_query p) v = has_access_b p v.
Proof.
  unfold Vehicles.matches, metrics_query.
  cbn [q_id q_or q_isActive q_ownerUserId q_orgId q_and
         Vehicles.key_matches].
  now rewrite access_clauses_matches, !andb_true_r.
Qed.

Lemma metrics_active_query_matches (p : Principal) (v : Vehicle) :
  matches (and_isActive (metrics_query p)) v
  = has_access_b p v && isActive v.
Proof.
  unfold Vehicles.matches, metrics_query, and_isActive.
  cbn [q_id q_or q_isActive q_ownerUserId q_orgId q_and
         Vehicles.key_matches].
  rewrite access_clauses_matches, !andb_true_r.
  now destruct (isActive v).
Qed.

(** C4 (amended). The metrics operation computes the number of vehicles
    under the access filter, the number of those that are active, the
    set of distinct owning-user identifiers among the accessible
    vehicles (absent ones left out) and the number of active users in
    that set.  It answers with the total vehicle count, the size of the
    set, the active-user count and the constant 4.6; the active vehicle
    count is not part of the answer. *)
Theorem metrics_contract (p : Principal) (s : Store) :
  let l := metrics_locals p s in
  l_totalCars l = List.length (filter (has_access_b p) (vehicles s))
  /\ l_activeCars l
     = List.length
         (filter (fun v => has_access_b p v && isActive v) (vehicles s))
  /\ NoDup (l_uniqueUsers l)
  /\ (forall u, In u (l_uniqueUsers l) <->
                u <> EmptyString
                /\ exists v, In v (vehicles s) /\ has_access p v
                             /\ ownerUserId v = Some u)
  /\ l_totalUsers l = List.length (l_uniqueUsers l)
  /\ l_activeUsers l
     = List.length
         (filter (fun u => Set_has (user_id u) (l_uniqueUsers l)
                           && user_isActive u)
            (users s))
  /\ metrics p s
     = metrics_data {| totalUsers := l_totalUsers l;
                       totalCars := l_totalCars l;
                       activeUsers := l_activeUsers l;
                       changePercentage := (46 # 10)%Q |}.
Proof.
  cbv zeta;
    unfold Vehicles.metrics, metrics_json, Vehicles.metrics_locals.
  cbn [l_totalCars l_activeCars l_uniqueUsers l_totalUsers l_activeUsers].
  unfold Vehicles.Vehicle_countDocuments, Vehicles.Vehicle_find.
  rewrite (filter_ext _ _ (metrics_query_matches p)).
  rewrite (filter_ext _ _ (metrics_active_query_matches p)).
  destruct (Set_from_spec
              (filter_Boolean
                 (map ownerUserId (filter (has_access_b p) (vehicles s))))
              [] (NoDup_nil _)) as [Hnd Hin].
  split; [reflexivity|]; split; [reflexivity|]; split; [exact Hnd|].
  split; [|repeat split; reflexivity].
  intros u; split.
  - intros H; apply Hin in H; destruct H as [[]|H].
    apply filter_Boolean_In in H; destruct H as [Hne H].
    split; [assumption|].
    apply in_map_iff in H; destruct H as [v [Hu Hv]].
    apply filter_In in Hv; destruct Hv as [Hv Ha].
    exists v; rewrite <- has_access_b_iff; auto.
  - intros [Hne [v (Hv & Ha & Hu)]].
    apply Hin; right; apply filter_Boolean_In; split; [assumption|].
    rewrite <- Hu; apply in_map, filter_In.
    rewrite has_access_b_iff; auto.
Qed.


(** *** GET /clients *)

Abbreviation clients_vehicles := (Vehicles.clients_vehicles regex_test).
Abbreviation roster := (Vehicles.roster regex_test).
Abbreviation clients := (Vehicles.clients regex_test).

Lemma Map_has_In {V : Type} (k : string) (m : list (string * V)) :
  Map_has k m = true <-> In k (map fst m).
Proof.
  unfold Map_has; rewrite existsb_exists, in_map_iff; split.
  - intros [e [Hin E]]; apply String.eqb_eq in E; exists e; auto.
  - intros [e [E Hin]]; exists e; split; [assumption|].
    now apply String.eqb_eq.
Qed.

(** [set] on an absent key appends the entry. *)
Lemma Map_set_fresh {V : Type} (k : string) (v : V)
  (m : list (string * V)) :
  Map_has k m = false -> Map_set k v m = m ++ [(k, v)].
Proof.
  induction m as [|[k' v'] m IH]; simpl; intros H; [reflexivity|].
  apply orb_false_iff in H; destruct H as [H1 H2].
  rewrite H1; f_equal; auto.
Qed.

Lemma Map_has_app {V : Type} (k : string) (m m' : list (string * V)) :
  Map_has k (m ++ m') = Map_has k m || Map_has k m'.
Proof. apply existsb_app. Qed.

(** The entry a vehicle contributes is filed under its own id. *)
Lemma client_of_id (pv : Populated) (k : string) (c : Client) :
  client_of pv = Some (k, c) -> client_id c = k.
Proof.
  unfold client_of.
  destruct (owner pv) as [u|]; [now intros [= <- <-]|].
  destruct (ownerInfo (doc pv)) as [oi|]; [|discriminate].
  destruct (oi_name oi) as [[|a name]|]; try discriminate.
  now intros [= <- <-].
Qed.

Lemma first_seen_nil (k : string) (c : Client) : ~ first_seen [] k c.
Proof.
  intros (before & pv & after & E & _).
  now destruct before.
Qed.

Lemma first_seen_cons (pv : Populated) (vs : list Populated) (k : string)
  (c : Client) :
  first_seen (pv :: vs) k c <->
  client_of pv = Some (k, c)
  \/ ((forall c', client_of pv <> Some (k, c')) /\ first_seen vs k c).
Proof.
  split.
  - intros (before & pv' & after & E & Hc & Hb).
    destruct before as [|x before]; simpl in E; inversion E; subst.
    + now left.
    + right; split.
      * apply Hb; now left.
      * exists before, pv', after.
        split; [reflexivity|]; split; [assumption|].
        intros pv'' Hin; apply Hb; now right.
  - intros [Hc|[Hn (before & pv' & after & E & Hc & Hb)]].
    + exists [], pv, vs; split; [reflexivity|]; split; [assumption|].
      intros pv' [].
    + exists (pv :: before), pv', after; subst vs.
      split; [reflexivity|]; split; [assumption|].
      intros pv'' [<-|Hin]; auto.
Qed.

(** The map built by the [forEach]: keys stay distinct, and an entry is
    in the map when it was there before or when it is built from the
    first vehicle that brings a key not seen before. *)
Lemma clients_fold (vs : list Populated) (acc : list (string * Client)) :
  NoDup (map fst acc) ->
  NoDup (map fst (fold_left clients_step vs acc))
  /\ forall k c,
       In (k, c) (fold_left clients_step vs acc) <->
       In (k, c) acc \/ (Map_has k acc = false /\ first_seen vs k c).
Proof.
  revert acc; induction vs as [|pv vs IH]; intros acc Hnd; simpl.
  - split; [assumption|].
    intros k c; split; [auto|].
    intros [H|[_ H]]; [assumption | now apply first_seen_nil in H].
  - unfold clients_step at 2 4.
    destruct (client_of pv) as [[k0 c0]|] eqn:Ec.
    + destruct (Map_has k0 acc) eqn:Eh.
      * destruct (IH acc Hnd) as [H1 H2]; split; [assumption|].
        intros k c; rewrite H2, first_seen_cons, Ec.
        split; (intros [H|[Hk H]]; [now left | right; split; auto]).
        -- right; split; [|assumption].
           intros c' [= -> _]; congruence.
        -- destruct H as [[= -> _]|[_ H]]; [congruence | assumption].
      * rewrite (Map_set_fresh _ _ _ Eh).
        assert (Hnd' : NoDup (map fst (acc ++ [(k0, c0)]))).
        { rewrite map_app; apply NoDup_app; [assumption| |].
          - repeat constructor; auto.
          - intros z Hz [<-|[]].
            apply Map_has_In in Hz; simpl in Hz; congruence. }
        destruct (IH _ Hnd') as [H1 H2]; split; [assumption|].
        intros k c;
          rewrite H2, first_seen_cons, Ec, in_app_iff, Map_has_app.
        unfold Map_has at 2; simpl.
        rewrite orb_false_r, orb_false_iff, String.eqb_neq.
        split.
        -- intros [[H|[[= <- <-]|[]]]|[[Hk Hne] H]]; auto.
           right; split; [assumption|]; right; split; [|assumption].
           intros c' [= E _]; congruence.
        -- intros [H|[Hk [[= <- <-]|[Hn H]]]]; auto.
           right; repeat split; auto.
           intros ->; now apply (Hn c0).
    + destruct (IH acc Hnd) as [H1 H2]; split; [assumption|].
      intros k c; rewrite H2, first_seen_cons, Ec.
      split; (intros [H|[Hk H]]; [now left | right; split; auto]).
      * right; split; [discriminate | assumption].
      * destruct H as [H|[_ H]]; [discriminate | assumption].
Qed.

(** The key under which the handler files a vehicle is the key of the
    specification. *)
Lemma client_of_roster_key (pv : Populated) :
  option_map fst (client_of pv) = roster_key pv.
Proof.
  unfold client_of, roster_key.
  destruct (owner pv) as [u|]; [reflexivity|].
  destruct (ownerInfo (doc pv)) as [oi|]; [|reflexivity].
  destruct (oi_name oi) as [[|a name]|]; try reflexivity.
  cbn [JS.truthy_opt JS.truthy option_map fst]; f_equal.
  unfold embedded_key, phone_or_email, JS.or_opt, JS.truthy_opt; f_equal.
  destruct (oi_phone oi) as [[|c ph]|]; reflexivity.
Qed.

Lemma roster_key_client_of (pv : Populated) (k : string) :
  roster_key pv = Some k <-> exists c, client_of pv = Some (k, c).
Proof.
  rewrite <- client_of_roster_key.
  destruct (client_of pv) as [[k' c']|]; simpl; split.
  - intros [= <-]; now exists c'.
  - now intros [c [= <- _]].
  - discriminate.
  - intros [c [=]].
Qed.

(** A key some vehicle brings has a first vehicle that brings it. *)
Lemma first_seen_of_member (pvs : list Populated) (pv : Populated)
  (k : string) :
  In pv pvs -> roster_key pv = Some k -> exists c, first_seen pvs k c.
Proof.
  induction pvs as [|pv0 pvs IH]; [intros []|].
  intros Hin Hk.
  destruct (client_of pv0) as [[k0 c0]|] eqn:E0.
  - destruct (string_dec k0 k) as [->|Hne].
    + exists c0; apply first_seen_cons; now left.
    + assert (Hin' : In pv pvs).
      { destruct Hin as [->|Hin]; [|assumption].
        apply roster_key_client_of in Hk; destruct Hk as [c Hc].
        congruence. }
      destruct (IH Hin' Hk) as [c Hfs]; exists c.
      apply first_seen_cons; right; split; [|assumption].
      rewrite E0; intros c' [= E _]; congruence.
  - assert (Hin' : In pv pvs).
    { destruct Hin as [->|Hin]; [|assumption].
      apply roster_key_client_of in Hk; destruct Hk as [c Hc].
      congruence. }
    destruct (IH Hin' Hk) as [c Hfs]; exists c.
    apply first_seen_cons; right; split; [|assumption].
    rewrite E0; discriminate.
Qed.

(** C6. The roster of an organization holds exactly one entry per key
    its vehicles bring, however many vehicles bring it: one per
    registered owning-user id and one per phone-or-email of a named
    embedded owner, filed under "info_" and that phone-or-email, so
    that owners with different phones or emails stay apart.  The entry
    kept for a key is the one built from the first vehicle seen with
    the key; later ones are ignored. *)
Theorem roster_unique_first_seen (orgId : string) (s : Store) :
  NoDup (map client_id (roster orgId s))
  /\ (forall k,
         (count_occ string_dec (map client_id (roster orgId s)) k <= 1)%nat)
  /\ (forall c,
         In c (roster orgId s) <->
         first_seen (clients_vehicles orgId s) (client_id c) c)
  /\ (forall p,
         req_user_orgId p = Some orgId -> orgId <> EmptyString ->
         clients p s
         = clients_data (roster orgId s) (List.length (roster orgId s)))
  /\ (forall pv u,
         In pv (clients_vehicles orgId s) -> owner pv = Some u ->
         count_occ string_dec (map client_id (roster orgId s)) (user_id u)
         = 1%nat)
  /\ (forall pv oi,
         In pv (clients_vehicles orgId s) -> owner pv = None ->
         ownerInfo (doc pv) = Some oi -> JS.truthy_opt (oi_name oi) = true ->
         count_occ string_dec (map client_id (roster orgId s))
           ("info_" ++ phone_or_email oi)%string
         = 1%nat)
  /\ (forall oi oi',
         phone_or_email oi <> phone_or_email oi' ->
         ("info_" ++ phone_or_email oi)%string
         <> ("info_" ++ phone_or_email oi')%string)
  /\ (forall before pv after k,
         clients_vehicles orgId s = before ++ pv :: after ->
         roster_key pv = Some k ->
         (forall pv', In pv' before -> roster_key pv' <> Some k) ->
         exists c,
           In c (roster orgId s) /\ client_id c = k
           /\ (forall u, owner pv = Some u ->
                         k = user_id u /\ c = registered_client u)
           /\ (forall oi name,
                  owner pv = None -> ownerInfo (doc pv) = Some oi ->
                  oi_name oi = Some name ->
                  k = ("info_" ++ phone_or_email oi)%string
                  /\ client_name c = name
                  /\ client_email c = JS.or_default (oi_email oi) ""
                  /\ client_phone c = JS.or_default (oi_phone oi) ""
                  /\ client_type c = embedded)).
Proof.
  unfold Vehicles.roster, Map_values, build_clientsMap.
  destruct (clients_fold (clients_vehicles orgId s) [] (NoDup_nil _))
    as [Hnd Hin].
  set (m := fold_left clients_step (clients_vehicles orgId s) []) in *.
  assert (Hid : forall e, In e m -> client_id (snd e) = fst e).
  { intros [k c] He; apply Hin in He; destruct He as [[]|[_ He]].
    destruct He as (before & pv & after & _ & Hc & _).
    now apply client_of_id in Hc. }
  assert (Hkeys : map client_id (map snd m) = map fst m).
  { rewrite map_map; now apply map_ext_in. }
  assert (Hnd' : NoDup (map client_id (map snd m)))
    by now rewrite Hkeys.
  assert (Hone : forall pv k,
             In pv (clients_vehicles orgId s) -> roster_key pv = Some k ->
             count_occ string_dec (map client_id (map snd m)) k = 1%nat).
  { intros pv k Hpv Hk.
    destruct (first_seen_of_member _ _ _ Hpv Hk) as [c Hfs].
    assert (Hm : In (k, c) m)
      by (apply Hin; right; split; [reflexivity | assumption]).
    assert (Hk' : In k (map client_id (map snd m))).
    { rewrite Hkeys; apply in_map_iff; now exists (k, c). }
    apply (count_occ_In string_dec) in Hk'.
    pose proof (proj1 (NoDup_count_occ string_dec _) Hnd' k); lia. }
  split; [assumption|]; split; [|split; [|split; [|split; [|split;
    [|split]]]]].
  - intros k.
    now apply (proj1 (NoDup_count_occ string_dec _)).
  - intros c; rewrite in_map_iff; split.
    + intros [[k c'] [E He]]; simpl in E; subst c'.
      pose proof (Hid _ He) as Hk; simpl in Hk; subst k.
      apply Hin in He; destruct He as [[]|[_ He]]; assumption.
    + intros H; exists (client_id c, c); split; [reflexivity|].
      apply Hin; right; split; [reflexivity | assumption].
  - intros p Hp Hne; unfold Vehicles.clients; rewrite Hp.
    destruct orgId as [|a orgId]; [now elim Hne|].
    reflexivity.
  - intros pv u Hpv Hu; apply (Hone pv); [assumption|].
    unfold roster_key; now rewrite Hu.
  - intros pv oi Hpv Hu Hoi Hn; apply (Hone pv); [assumption|].
    unfold roster_key; now rewrite Hu, Hoi, Hn.
  - intros oi oi' Hne E; apply Hne.
    now injection E.
  - intros before pv after k E Hk Hfirst.
    pose proof Hk as Hc; apply roster_key_client_of in Hc.
    destruct Hc as [c Hc]; exists c.
    assert (Hm : In (k, c) m).
    { apply Hin; right; split; [reflexivity|].
      exists before, pv, after; split; [assumption|]; split; [assumption|].
      intros pv' Hpv' c' Hc'; apply (Hfirst pv' Hpv').
      apply roster_key_client_of; now exists c'. }
    split; [apply in_map_iff; now exists (k, c)|].
    split; [exact (Hid _ Hm)|].
    unfold client_of in Hc; split.
    + intros u Hu; rewrite Hu in Hc; now injection Hc as <- <-.
    + intros oi name Hu Hoi Hname; rewrite Hu, Hoi, Hname in Hc.
      unfold roster_key in Hk; rewrite Hu, Hoi, Hname in Hk.
      destruct name as [|a name]; [discriminate|].
      injection Hc as _ <-; injection Hk as <-.
      repeat split.
Qed.

(** *** GET / *)

Abbreviation list_vehicles := (Vehicles.list_vehicles regex_test).

Lemma insert_desc_length (v : Vehicle) (l : list Vehicle) :
  List.length (insert_desc v l) = S (List.length l).
Proof.
  induction l as [|w l IH]; simpl; [reflexivity|].
  destruct (createdAt w <=? createdAt v)%Z; simpl; auto.
Qed.

(** Sorting keeps every record. *)
Lemma sort_createdAt_desc_length (l : list Vehicle) :
  List.length (sort_createdAt_desc l) = List.length l.
Proof.
  induction l as [|v l IH]; simpl; [reflexivity|].
  now rewrite insert_desc_length, IH.
Qed.

(** [pages_of] is the ceiling of [total / limit]. *)
Lemma pages_of_ceiling (total : nat) (limit : Z) :
  (1 <= limit)%Z ->
  exists pages,
    pages_of total limit = Some pages
    /\ ((pages - 1) * limit < Z.of_nat total <= pages * limit)%Z.
Proof.
  intros Hl; unfold pages_of.
  destruct (Z.eqb_spec limit 0) as [->|_]; [lia|].
  eexists; split; [reflexivity|].
  pose proof (Z.div_mod (- Z.of_nat total) limit ltac:(lia)) as Hdm.
  pose proof (Z.mod_pos_bound (- Z.of_nat total) limit ltac:(lia)) as Hb.
  nia.
Qed.


(** C7 (amended). A listing request for page [pg] (1 when absent) with
    limit [l] (10 when absent), where [pg] and [l] are at least 1,
    skips [(pg - 1) * l] records of the sorted selection and answers
    with at most [l] of them; [total] is the size of the selection of
    the same filter and [pages] is the ceiling of [total / l].  Over 12
    selected vehicles, page 2 with limit 5 has exactly 5 records and 3
    pages. *)
Theorem listing_pagination (p : Principal) (r : ListParams) (s : Store) :
  let pg := default_to 1%Z (page r) in
  let l := default_to 10%Z (limit r) in
  let selection := Vehicle_find (list_query p r) s in
  (1 <= pg)%Z ->
  (1 <= l)%Z ->
  exists data pages,
    list_vehicles p r s
    = vehicles_data data (List.length selection) pg l (Some pages)
    /\ data
       = map (if JS.truthy_opt (ownerId r) then booking_form_row
              else listing_row)
           (map (populate s)
              (firstn (Z.to_nat l)
                 (skipn (Z.to_nat ((pg - 1) * l))
                    (sort_createdAt_desc selection))))
    /\ List.length data
       = Nat.min (Z.to_nat l)
           (List.length selection - Z.to_nat ((pg - 1) * l))
    /\ (List.length data <= Z.to_nat l)%nat
    /\ ((pages - 1) * l < Z.of_nat (List.length selection) <= pages * l)%Z
    /\ (List.length selection = 12%nat -> pg = 2%Z -> l = 5%Z ->
        List.length data = 5%nat /\ pages = 3%Z).
Proof.
  intros pg l selection Hpg Hl.
  destruct (pages_of_ceiling (List.length selection) l Hl)
    as (pages & Hpages & Hceil).
  set (found := firstn (Z.to_nat l)
                  (skipn (Z.to_nat ((pg - 1) * l))
                     (sort_createdAt_desc selection))).
  exists (map (if JS.truthy_opt (ownerId r) then booking_form_row
               else listing_row) (map (populate s) found)), pages.
  assert (Hlen : List.length found
                 = Nat.min (Z.to_nat l)
                     (List.length selection - Z.to_nat ((pg - 1) * l))).
  { unfold found.
    now rewrite length_firstn, length_skipn, sort_createdAt_desc_length. }
  split; [|split; [reflexivity|]].
  - unfold Vehicles.list_vehicles, Vehicles.list_page, cursor_skip,
      cursor_limit, Vehicles.Vehicle_countDocuments.
    fold pg l selection.
    assert (E1 : ((pg - 1) * l <? 0)%Z = false) by (apply Z.ltb_ge; nia).
    assert (E2 : (l =? 0)%Z = false) by (apply Z.eqb_neq; lia).
    rewrite E1, E2.
    rewrite Z.abs_eq by lia.
    cbn [option_map]; fold found; rewrite Hpages.
    now destruct (JS.truthy_opt (ownerId r)).
  - rewrite !length_map, Hlen.
    split; [reflexivity|]; split; [lia|]; split; [assumption|].
    intros H12 -> ->; rewrite H12 in *; split; [reflexivity | lia].
Qed.

End Facts.

Import Samples.

(** C1, as stated, fails on the listing in both directions: [v2] is
    owned by the caller but inactive, and the listing leaves it out;
    [v3] belongs to another user and to an organization the caller is
    not in, and a caller without organization lists it through
    [ownerId]. *)
Lemma vehicle_visibility_counterexample :
  (In (vehicle "v2" (Some "u1") None false 20) (vehicles store1)
   /\ has_access alice (vehicle "v2" (Some "u1") None false 20)
   /\ ~ listed literal_regex alice no_params store1
          (vehicle "v2" (Some "u1") None false 20))
  /\
  (~ has_access alice (vehicle "v3" (Some "u2") (Some "g1") true 30)
   /\ listed literal_regex alice
        {| page := None; limit := None; search := None;
           ownerId := Some "u2" |}
        store1 (vehicle "v3" (Some "u2") (Some "g1") true 30)).
Proof.
  split; [split; [|split]|split].
  - simpl; auto.
  - left; reflexivity.
  - unfold listed; vm_compute; intuition discriminate.
  - intros [H|H]; discriminate.
  - unfold listed; vm_compute; auto.
Qed.

Lemma vehicle_visibility_witness :
  (resolved literal_regex alice store1
     (vehicle "v2" (Some "u1") None false 20)
   <-> In (vehicle "v2" (Some "u1") None false 20) (vehicles store1)
       /\ has_access alice (vehicle "v2" (Some "u1") None false 20))
  /\ (listed literal_regex alice no_params store1
        (vehicle "v1" (Some "u1") None true 10)
      <-> In (vehicle "v1" (Some "u1") None true 10) (vehicles store1)
          /\ has_access alice (vehicle "v1" (Some "u1") None true 10)
          /\ isActive (vehicle "v1" (Some "u1") None true 10) = true
          /\ search_matches literal_regex (search no_params)
               (vehicle "v1" (Some "u1") None true 10) = true).
Proof.
  assert (Hnd : NoDup (map _id (vehicles store1))).
  { simpl; repeat constructor; simpl; intuition discriminate. }
  split.
  - exact (proj1 (vehicle_visibility literal_regex alice store1 _ Hnd)).
  - exact (proj2 (vehicle_visibility literal_regex alice store1 _ Hnd)
             no_params eq_refl).
Defined.

(** C5, as stated, fails: [v4] is owned by the requested [ownerId] and
    belongs to the caller's organization, but it is inactive and the
    listing leaves it out. *)
Lemma listing_owner_filter_counterexample :
  In (vehicle "v4" (Some "u2") (Some "g1") false 40) (vehicles store1)
  /\ ownerUserId (vehicle "v4" (Some "u2") (Some "g1") false 40)
     = Some "u2"
  /\ orgId (vehicle "v4" (Some "u2") (Some "g1") false 40)
     = req_user_orgId garage_admin
  /\ ~ listed literal_regex garage_admin
         {| page := None; limit := None; search := None;
            ownerId := Some "u2" |}
         store1 (vehicle "v4" (Some "u2") (Some "g1") false 40).
Proof.
  split; [|split; [|split]].
  - simpl; auto 6.
  - reflexivity.
  - reflexivity.
  - unfold listed; vm_compute; intuition discriminate.
Qed.

Lemma listing_owner_filter_witness :
  q_or (list_query garage_admin
          {| page := None; limit := None; search := None;
             ownerId := Some "u2" |}) = None
  /\ listed literal_regex garage_admin
       {| page := None; limit := None; search := None;
          ownerId := Some "u2" |}
       store1 (vehicle "v7" (Some "u2") (Some "g1") true 70).
Proof.
  pose proof (listing_owner_filter literal_regex garage_admin
                {| page := None; limit := None; search := None;
                   ownerId := Some "u2" |}
                store1 "u2" (vehicle "v7" (Some "u2") (Some "g1") true 70)
                eq_refl) as H.
  destruct H as [H1 H2]; [discriminate|].
  split; [exact H1|].
  apply H2; repeat split.
  - simpl; auto 10.
  - now intros g [= <-] _.
Defined.

(** In [store1], [v3] is not the caller's and no vehicle has the id
    [v0]. *)
Lemma alice_no_access (id : string) :
  id = "v3" \/ id = "v0" ->
  forall v, In v (vehicles store1) -> _id v = id -> ~ has_access alice v.
Proof.
  intros Hid v Hin E; each_member Hin;
    destruct Hid as [-> | ->]; try discriminate E.
  intros [H|H]; discriminate.
Qed.

(** A request the provider answers: the image is stored on the vehicle
    and one audit entry is written. *)
Example generate_image_success :
  let (response, s) :=
    generate_image literal_regex provider_ok alice
      (body "v1" "Toyota" "Corolla" "2019") store1 in
  response = image_generated "v1" (Some "https://img.example/Toyota.png")
  /\ option_map imageUrl (nth_error (vehicles s) 0)
     = Some (Some "https://img.example/Toyota.png")
  /\ map action (auditLog s) = ["vehicle_image_generated"].
Proof. repeat split. Qed.

(** C2, as stated, fails: [v3] is not accessible to the caller, but the
    request names an empty make and is answered with the validation
    error (400), not with not-found. *)
Lemma generate_image_inaccessible_counterexample :
  (forall v, In v (vehicles store1) ->
             _id v = body_vehicleId (body "v3" "" "Corolla" "2019") ->
             ~ has_access alice v)
  /\ fst (generate_image literal_regex provider_ok alice
            (body "v3" "" "Corolla" "2019") store1)
     = validation_error "Make is required"
  /\ status_code
       (fst (generate_image literal_regex provider_ok alice
               (body "v3" "" "Corolla" "2019") store1)) = 400%Z.
Proof.
  split; [|split; reflexivity].
  apply alice_no_access; now left.
Qed.

Lemma generate_image_inaccessible_witness :
  (snd (generate_image literal_regex provider_ok alice
          (body "v3" "Toyota" "Corolla" "2019") store1) = store1
   /\ fst (generate_image literal_regex provider_ok alice
             (body "v3" "Toyota" "Corolla" "2019") store1)
      = vehicle_not_found)
  /\ fst (generate_image literal_regex provider_ok alice
            (body "v0" "Toyota" "Corolla" "twenty") store1)
     = validation_error "Year must be a number".
Proof.
  split.
  - destruct (generate_image_inaccessible literal_regex provider_ok
                alice (body "v3" "Toyota" "Corolla" "2019") store1
                (alice_no_access "v3" (or_introl eq_refl)))
      as (Hs & Hr & _).
    split; [exact Hs | exact (proj1 (Hr eq_refl))].
  - destruct (generate_image_inaccessible literal_regex provider_ok
                alice (body "v0" "Toyota" "Corolla" "twenty") store1
                (alice_no_access "v0" (or_intror eq_refl)))
      as (_ & _ & Hr).
    exact (Hr "Year must be a number" [] eq_refl).
Defined.

Lemma generate_image_provider_failure_witness :
  (snd (generate_image literal_regex provider_rate_limited alice
          (body "v1" "Toyota" "Corolla" "2019") store1) = store1
   /\ fst (generate_image literal_regex provider_rate_limited alice
             (body "v1" "Toyota" "Corolla" "2019") store1)
      = rate_limit_error)
  /\ status_code
       (fst (generate_image literal_regex provider_down alice
               (body "v1" "Toyota" "Corolla" "2019") store1)) = 500%Z.
Proof.
  split.
  - destruct (generate_image_provider_failure literal_regex
                provider_rate_limited alice
                (body "v1" "Toyota" "Corolla" "2019") store1
                (vehicle "v1" (Some "u1") None true 10)
                "429: rate limit reached for images"
                eq_refl eq_refl eq_refl) as (Hs & Hr & _).
    split; [exact Hs|].
    apply Hr; right.
    exists "429: "%string, " reached for images"%string; reflexivity.
  - destruct (generate_image_provider_failure literal_regex
                provider_down alice
                (body "v1" "Toyota" "Corolla" "2019") store1
                (vehicle "v1" (Some "u1") None true 10)
                "Rate Limit: connect ECONNREFUSED"
                eq_refl eq_refl eq_refl) as (_ & _ & Hr).
    apply Hr; apply JSFacts.includes_false; reflexivity.
Defined.

(** C4, as stated, fails: the answer does not carry the active vehicle
    count.  [store1] and [store2] differ in that count and get the same
    answer. *)
Lemma metrics_contract_counterexample :
  l_activeCars (metrics_locals literal_regex alice store1) = 1%nat
  /\ l_activeCars (metrics_locals literal_regex alice store2) = 0%nat
  /\ metrics literal_regex alice store1 = metrics literal_regex alice store2.
Proof.
  repeat split; reflexivity.
Qed.


(** The roster of the garage of [store1]: three vehicles of one
    registered user give one entry, and of the two walk-in owners with
    the same phone the first is kept. *)
Example roster_store1 :
  map (fun c => (client_id c, client_name c)) (roster literal_regex "g1" store1)
  = [("u2", "Unknown"); ("info_0700", "Wanjiru")].
Proof. reflexivity. Qed.

(** The roster of the garage of [store3]: the two owners with phone
    0700 give one entry, the first; the owner with phone 0711 has an
    entry of his own, and so has the owner known by an email. *)
Example roster_store3 :
  map (fun c => (client_id c, client_name c))
    (roster literal_regex "g1" store3)
  = [("info_0700", "Wanjiru"); ("info_0711", "Kamau"); ("u2", "Bob");
     ("info_o@example.com", "Otieno")].
Proof. reflexivity. Qed.

Lemma roster_unique_first_seen_witness :
  count_occ string_dec (map client_id (roster literal_regex "g1" store3))
    "info_0711" = 1%nat
  /\ count_occ string_dec (map client_id (roster literal_regex "g1" store3))
       "u2" = 1%nat
  /\ (exists c,
         In c (roster literal_regex "g1" store3)
         /\ client_id c = "info_0700" /\ client_name c = "Wanjiru")
  /\ clients literal_regex garage_admin store3
     = clients_data (roster literal_regex "g1" store3) 4.
Proof.
  destruct (roster_unique_first_seen literal_regex "g1" store3)
    as (_ & _ & _ & Hc & Hu & Hi & _ & Hf).
  split; [|split; [|split]].
  - apply (Hi (populate store3
                 (walk_in "w2" (Some "g1") (Some "Kamau") (Some "0711")
                    None 20))
              {| oi_name := Some "Kamau"; oi_email := None;
                 oi_phone := Some "0711" |});
      [vm_compute; auto 10 | reflexivity ..].
  - apply (Hu (populate store3 (vehicle "w3" (Some "u2") (Some "g1") true 30))
              (user "u2" (Some "Bob") true));
      [vm_compute; auto 10 | reflexivity].
  - destruct (Hf []
                (populate store3
                   (walk_in "w1" (Some "g1") (Some "Wanjiru") (Some "0700")
                      None 10))
                (map (populate store3) (tl (vehicles store3)))
                "info_0700" eq_refl eq_refl ltac:(intros pv' []))
      as (c & Hin & Hid & _ & He).
    exists c; split; [exact Hin|]; split; [exact Hid|].
    exact (proj1 (proj2 (He _ "Wanjiru" eq_refl eq_refl eq_refl))).
  - exact (Hc garage_admin eq_refl ltac:(discriminate)).
Defined.

(** C7, as stated, fails on a request with [limit=0]: the handler
    passes the zero to the cursor, for which it means no limit, and
    divides by it; over the 12 vehicles of [store12] the answer has 12
    records, not at most 0, and no page count. *)
Lemma listing_pagination_counterexample :
  exists data,
    list_vehicles literal_regex alice
      {| page := None; limit := Some 0%Z; search := None; ownerId := None |}
      store12
    = vehicles_data data 12 1 0 None
    /\ List.length data = 12%nat
    /\ ~ (List.length data <= Z.to_nat 0)%nat.
Proof.
  eexists; split; [reflexivity|]; split; [reflexivity|].
  simpl; lia.
Qed.

Lemma listing_pagination_witness :
  (exists data,
      list_vehicles literal_regex alice
        {| page := Some 2%Z; limit := Some 5%Z; search := None;
           ownerId := None |} store12
      = vehicles_data data 12 2 5 (Some 3%Z)
      /\ List.length data = 5%nat)
  /\ (exists data,
         list_vehicles literal_regex alice no_params store12
         = vehicles_data data 12 1 10 (Some 2%Z)
         /\ List.length data = 10%nat).
Proof.
  split.
  - destruct (listing_pagination literal_regex alice
                {| page := Some 2%Z; limit := Some 5%Z; search := None;
                   ownerId := None |} store12
                ltac:(simpl; lia) ltac:(simpl; lia))
      as (data & pages & Heq & _ & _ & _ & _ & Hinst).
    destruct (Hinst eq_refl eq_refl eq_refl) as [Hlen ->].
    exists data; split; [exact Heq | exact Hlen].
  - destruct (listing_pagination literal_regex alice no_params store12
                ltac:(simpl; lia) ltac:(simpl; lia))
      as (data & pages & Heq & _ & Hlen & _ & Hceil & _).
    assert (Hp : pages = 2%Z).
    { cbn [default_to limit no_params] in Hceil.
      change (List.length _) with 12%nat in Hceil; lia. }
    subst pages; exists data; split; [exact Heq | exact Hlen].
Defined.

End VehiclesFacts.

(** * Further properties *)

(** ** Trimming *)

Module TrimFacts.

Lemma trim_start_length (s : string) :
  (String.length (JS.trim_start s) <= String.length s)%nat.
Proof.
  induction s as [|c s IH]; simpl; [lia|].
  destruct (JS.is_ws c); simpl; lia.
Qed.

(** A string already trimmed at the start stays so when its end is
    trimmed. *)
Lemma trim_start_trim_end (t : string) :
  JS.trim_start t = t -> JS.trim_start (JS.trim_end t) = JS.trim_end t.
Proof.
  destruct t as [|c r]; [reflexivity|].
  simpl; destruct (JS.is_ws c) eqn:E.
  - intros H; pose proof (trim_start_length r) as L.
    rewrite H in L; simpl in L; lia.
  - intros _; destruct (JS.trim_end r); simpl; now rewrite E.
Qed.

Lemma trim_start_idempotent (s : string) :
  JS.trim_start (JS.trim_start s) = JS.trim_start s.
Proof.
  induction s as [|c s IH]; [reflexivity|].
  simpl; destruct (JS.is_ws c) eqn:E; [assumption|].
  simpl; now rewrite E.
Qed.

Lemma trim_end_idempotent (s : string) :
  JS.trim_end (JS.trim_end s) = JS.trim_end s.
Proof.
  induction s as [|c s IH]; [reflexivity|].
  simpl; destruct (JS.trim_end s) as [|d e] eqn:E.
  - destruct (JS.is_ws c) eqn:W; [reflexivity|].
    simpl; now rewrite W.
  - change (JS.trim_end (String c (String d e)))
      with (match JS.trim_end (String d e) with
            | EmptyString =>
                if JS.is_ws c then EmptyString else String c EmptyString
            | rest' => String c rest'
            end).
    now rewrite IH.
Qed.

(** Trimming twice is trimming once. *)
Lemma trim_idempotent (s : string) : JS.trim (JS.trim s) = JS.trim s.
Proof.
  unfold JS.trim.
  rewrite (trim_start_trim_end _ (trim_start_idempotent s)).
  apply trim_end_idempotent.
Qed.

(** The same for a text of code units. *)

Lemma trim_start_text_length (s : JS.text) :
  (List.length (JS.trim_start_text s) <= List.length s)%nat.
Proof.
  induction s as [|c s IH]; simpl; [lia|].
  destruct (JS.is_white_space c); simpl; lia.
Qed.

Lemma trim_start_text_idempotent (s : JS.text) :
  JS.trim_start_text (JS.trim_start_text s) = JS.trim_start_text s.
Proof.
  induction s as [|c s IH]; [reflexivity|].
  simpl; destruct (JS.is_white_space c) eqn:E; [assumption|].
  simpl; now rewrite E.
Qed.

Lemma trim_start_trim_end_text (t : JS.text) :
  JS.trim_start_text t = t ->
  JS.trim_start_text (JS.trim_end_text t) = JS.trim_end_text t.
Proof.
  destruct t as [|c r]; [reflexivity|].
  simpl; destruct (JS.is_white_space c) eqn:E.
  - intros H; pose proof (trim_start_text_length r) as L.
    rewrite H in L; simpl in L; lia.
  - intros _; destruct (JS.trim_end_text r); simpl; now rewrite E.
Qed.

Lemma trim_end_text_idempotent (s : JS.text) :
  JS.trim_end_text (JS.trim_end_text s) = JS.trim_end_text s.
Proof.
  induction s as [|c s IH]; [reflexivity|].
  simpl; destruct (JS.trim_end_text s) as [|d e] eqn:E.
  - destruct (JS.is_white_space c) eqn:W; [reflexivity|].
    simpl; now rewrite W.
  - change (JS.trim_end_text (c :: d :: e))
      with (match JS.trim_end_text (d :: e) with
            | [] => if JS.is_white_space c then [] else [c]
            | rest' => c :: rest'
            end).
    now rewrite IH.
Qed.

Lemma trim_text_idempotent (s : JS.text) :
  JS.trim_text (JS.trim_text s) = JS.trim_text s.
Proof.
  unfold JS.trim_text.
  rewrite (trim_start_trim_end_text _ (trim_start_text_idempotent s)).
  apply trim_end_text_idempotent.
Qed.

(** What is trimmed is white space, and only the ends are touched: the
    text is its trimmed form between two runs of white space, and the
    trimmed form neither starts nor ends with white space. *)
Lemma trim_text_spec (s : JS.text) :
  exists before after,
    s = before ++ JS.trim_text s ++ after
    /\ forallb JS.is_white_space before = true
    /\ forallb JS.is_white_space after = true
    /\ (forall c rest, JS.trim_text s = c :: rest ->
                       JS.is_white_space c = false)
    /\ (forall c rest, JS.trim_text s = rest ++ [c] ->
                       JS.is_white_space c = false).
Proof.
  assert (Hstart : forall t, exists before,
             t = before ++ JS.trim_start_text t
             /\ forallb JS.is_white_space before = true
             /\ forall c rest, JS.trim_start_text t = c :: rest ->
                               JS.is_white_space c = false).
  { induction t as [|c t (b & E & Hb & Hc)]; simpl.
    - exists []; repeat split; intros; discriminate.
    - destruct (JS.is_white_space c) eqn:W.
      + exists (c :: b); simpl; rewrite W, Hb; split; [now f_equal|].
        split; [reflexivity | exact Hc].
      + exists []; split; [reflexivity|]; split; [reflexivity|].
        now intros c' rest [= <- _]. }
  assert (Hend : forall t, exists after,
             t = JS.trim_end_text t ++ after
             /\ forallb JS.is_white_space after = true
             /\ (forall c rest, JS.trim_end_text t = rest ++ [c] ->
                                JS.is_white_space c = false)
             /\ (forall c rest, JS.trim_end_text t = c :: rest ->
                                exists rest', t = c :: rest')).
  { induction t as [|c t (a & E & Ha & Hl & Hf)]; simpl.
    - exists []; repeat split; intros; try discriminate.
      now destruct rest.
    - destruct (JS.trim_end_text t) as [|d e] eqn:T.
      + destruct (JS.is_white_space c) eqn:W.
        * exists (c :: a); simpl in *; rewrite W, Ha.
          split; [now f_equal|]; repeat split; intros; try discriminate.
          now destruct rest.
        * exists a; simpl in *; split; [now f_equal|].
          split; [assumption|]; split.
          -- intros c' [|x rest] H; [now injection H as <-|].
             injection H as _ H; now destruct rest.
          -- intros c' rest [= <- _]; now exists t.
      + exists a; split; [simpl in *; now f_equal|].
        split; [assumption|]; split.
        * intros c' [|x rest] H; [discriminate|].
          injection H as _ H; now apply (Hl c' rest).
        * intros c' rest [= <- _]; now exists t. }
  unfold JS.trim_text.
  destruct (Hstart s) as (before & Es & Hb & Hc).
  destruct (Hend (JS.trim_start_text s)) as (after & Ee & Ha & Hl & Hf).
  exists before, after; split; [now rewrite <- Ee|].
  split; [assumption|]; split; [assumption|]; split; [|assumption].
  intros c rest H; destruct (Hf c rest H) as [rest' H'].
  now apply (Hc c rest').
Qed.

End TrimFacts.

(** ** The Booking model, continued *)

Module BookingMore.

Import Booking.

Lemma with_default_idempotent {A : Type} (d : A) (o : option A) :
  with_default d (with_default d o) = with_default d o.
Proof. now destruct o. Qed.

Lemma trimmed_idempotent (o : option JS.text) :
  trimmed (trimmed o) = trimmed o.
Proof.
  destruct o as [s|]; simpl; [|reflexivity].
  now rewrite TrimFacts.trim_text_idempotent.
Qed.

(** X1. Building a booking from an already built booking changes
    nothing: the setters and defaults of the schema are idempotent, and
    so validation gives the same verdict on both. *)
Theorem booking_construct_idempotent (obj : t) :
  construct (construct obj) = construct obj
  /\ accepted (construct obj) = accepted obj.
Proof.
  assert (E : construct (construct obj) = construct obj).
  { unfold construct; cbn [duration status notes garageNotes
                             googleCalendarEventId source cancellationReason
                             isActive clientId clientInfo vehicleInfo
                             garageId vehicleId serviceType scheduledDate
                             createdBy confirmedBy confirmedAt quotationId
                             analysisId cancelledBy cancelledAt completedAt].
    now rewrite !with_default_idempotent, !trimmed_idempotent. }
  split; [exact E|].
  unfold accepted; now rewrite E.
Qed.

(** X2. The defaults of the schema pass the validators of the schema: a
    booking given without duration, status, source and notes is built
    with duration 60, status "pending", source "app" and the active
    flag set, and is accepted exactly when it carries a garage
    reference, a serviceType of the closed set and a scheduled date. *)
Theorem booking_defaults_accepted (obj : t) :
  duration obj = None -> status obj = None -> source obj = None ->
  notes obj = None -> garageNotes obj = None ->
  duration (construct obj) = Some 60%Z
  /\ status (construct obj) = Some "pending"
  /\ source (construct obj) = Some "app"
  /\ (isActive obj = None -> isActive (construct obj) = Some true)
  /\ (accepted obj = true <->
      garageId obj <> None
      /\ (exists s, serviceType obj = Some s /\ In s serviceType_enum)
      /\ scheduledDate obj <> None).
Proof.
  intros Hd Hs Hsrc Hn Hg.
  unfold construct; cbn [duration status source isActive].
  rewrite Hd, Hs, Hsrc.
  split; [reflexivity|]; split; [reflexivity|]; split; [reflexivity|].
  split; [now intros ->|].
  rewrite BookingFacts.accepted_iff; unfold valid.
  rewrite Hd, Hs, Hsrc, Hn, Hg.
  split.
  - tauto.
  - intros (H1 & H2 & H3); repeat split; auto; intros ? [=].
Qed.

Lemma booking_defaults_accepted_witness :
  accepted (make (Some "g1") (Some "inspection") (Some 1700000000000%Z)
              None None None None None) = true.
Proof.
  apply (proj2 (proj2 (proj2 (proj2
           (booking_defaults_accepted
              (make (Some "g1") (Some "inspection") (Some 1700000000000%Z)
                 None None None None None)
              eq_refl eq_refl eq_refl eq_refl eq_refl))))).
  split; [discriminate|]; split; [|discriminate].
  exists "inspection"; split; [reflexivity | simpl; auto].
Defined.

(** X3. A booking without a garage reference or without a scheduled
    date is rejected, and so is one whose status or source is given
    outside its enum. *)
Theorem booking_required_and_enums (obj : t) :
  (garageId obj = None -> rejected obj = true)
  /\ (scheduledDate obj = None -> rejected obj = true)
  /\ (forall s, status obj = Some s -> ~ In s status_enum ->
                rejected obj = true)
  /\ (forall s, source obj = Some s -> ~ In s source_enum ->
                rejected obj = true).
Proof.
  split; [|split; [|split]]; intros; apply BookingFacts.rejected_iff;
    intros (Hg & _ & Hd & _ & Hst & _ & _ & Hsrc).
  - congruence.
  - congruence.
  - eauto.
  - eauto.
Qed.

Lemma booking_required_and_enums_witness :
  rejected (make None (Some "repair") (Some 0%Z) None None None None None)
  = true
  /\ rejected (make (Some "g1") (Some "repair") None None None None None
                 None) = true
  /\ rejected (make (Some "g1") (Some "repair") (Some 0%Z) None
                 (Some "done") None None None) = true
  /\ rejected (make (Some "g1") (Some "repair") (Some 0%Z) None None None
                 None (Some "phone")) = true.
Proof.
  split; [|split; [|split]].
  - apply (proj1 (booking_required_and_enums _)); reflexivity.
  - apply (proj1 (proj2 (booking_required_and_enums _))); reflexivity.
  - apply (proj1 (proj2 (proj2 (booking_required_and_enums _))) "done");
      [reflexivity | simpl; intuition discriminate].
  - apply (proj2 (proj2 (proj2 (booking_required_and_enums _))) "phone");
      [reflexivity | simpl; intuition discriminate].
Defined.

(** X4. No booking is upcoming and past at once; a booking scheduled
    at this very instant is neither; a cancelled booking is never
    upcoming; and a booking that is not cancelled, with a date other
    than now, is exactly one of the two. *)
Theorem booking_virtuals_exclusive (now : Z) (doc : t) :
  (isUpcoming now doc && isPast now doc = false)
  /\ (scheduledDate doc = Some now ->
      isUpcoming now doc = false /\ isPast now doc = false)
  /\ (status doc = Some "cancelled" -> isUpcoming now doc = false)
  /\ (forall d, scheduledDate doc = Some d -> d <> now ->
                status doc <> Some "cancelled" ->
                isUpcoming now doc = negb (isPast now doc)).
Proof.
  unfold isUpcoming, isPast; split; [|split; [|split]].
  - destruct (scheduledDate doc) as [d|]; [|reflexivity].
    destruct (Z.ltb_spec d now) as [H|H]; [|apply andb_false_r].
    assert (E : (now <? d)%Z = false) by (apply Z.ltb_ge; lia).
    now rewrite E.
  - intros ->; rewrite Z.ltb_irrefl; split; reflexivity.
  - intros ->; destruct (scheduledDate doc) as [d|]; [|reflexivity].
    simpl; apply andb_false_r.
  - intros d -> Hne Hs.
    assert (E : match status doc with
                | Some s => String.eqb s "cancelled"
                | None => false
                end = false).
    { destruct (status doc) as [s|]; [|reflexivity].
      destruct (String.eqb_spec s "cancelled"); [subst; now elim Hs|easy]. }
    rewrite E; simpl; rewrite andb_true_r.
    destruct (Z.ltb_spec now d), (Z.ltb_spec d now); simpl;
      try reflexivity; lia.
Qed.

Lemma booking_virtuals_exclusive_witness :
  isUpcoming 1000 (make (Some "g1") (Some "repair") (Some 1000%Z) None
                     (Some "confirmed") None None None) = false
  /\ isPast 1000 (make (Some "g1") (Some "repair") (Some 1000%Z) None
                    (Some "confirmed") None None None) = false
  /\ isUpcoming 1000 (make (Some "g1") (Some "repair") (Some 2000%Z) None
                        (Some "cancelled") None None None) = false.
Proof.
  split; [|split].
  - apply (proj1 (proj2 (booking_virtuals_exclusive 1000 _))); reflexivity.
  - apply (proj1 (proj2 (booking_virtuals_exclusive 1000 _))); reflexivity.
  - apply (proj1 (proj2 (proj2 (booking_virtuals_exclusive 1000 _))));
      reflexivity.
Defined.

End BookingMore.

(** ** The vehicle routes, continued *)

Module VehiclesMore.

Import Vehicles.

(** *** Lists *)

Lemma filter_length_le {A : Type} (f g : A -> bool) (l : list A) :
  (forall x, f x = true -> g x = true) ->
  (List.length (filter f l) <= List.length (filter g l))%nat.
Proof.
  intros H; induction l as [|x l IH]; simpl; [lia|].
  destruct (f x) eqn:E.
  - rewrite (H x E); simpl; lia.
  - destruct (g x); simpl; lia.
Qed.

(** Keeping some of the users keeps their ids distinct. *)
Lemma kept_user_ids_distinct (keep : User -> bool) (us : list User) :
  NoDup (map user_id us) -> NoDup (map user_id (filter keep us)).
Proof.
  induction us as [|u us IH]; simpl; [trivial|].
  intros H; inversion H as [|? ? Hu Hus]; subst.
  destruct (keep u); simpl; [|auto].
  constructor; [|auto].
  intros Hin; apply Hu.
  apply in_map_iff in Hin; destruct Hin as [y [E Hy]].
  apply filter_In in Hy; rewrite <- E; apply in_map; tauto.
Qed.

Lemma find_map {A : Type} (P : A -> bool) (g : A -> A) (l : list A) :
  (forall x, In x l -> P (g x) = P x) ->
  find P (map g l) = option_map g (find P l).
Proof.
  induction l as [|x l IH]; simpl; intros H; [reflexivity|].
  rewrite (H x) by now left.
  destruct (P x); [reflexivity | apply IH; auto].
Qed.

Lemma firstn_skipn_add {A : Type} (a b : nat) (l : list A) :
  firstn a l ++ firstn b (skipn a l) = firstn (a + b) l.
Proof.
  revert l; induction a as [|a IH]; intros l; [reflexivity|].
  destruct l as [|x l]; simpl.
  - now rewrite firstn_nil.
  - now rewrite IH.
Qed.

(** *** Sorting *)

Lemma insert_desc_In (v x : Vehicle) (l : list Vehicle) :
  In x (insert_desc v l) <-> x = v \/ In x l.
Proof.
  induction l as [|w l IH]; simpl.
  - intuition.
  - destruct (createdAt w <=? createdAt v)%Z; simpl; [intuition|].
    rewrite IH; intuition.
Qed.

Lemma insert_desc_sorted (v : Vehicle) (l : list Vehicle) :
  StronglySorted newer_first l -> StronglySorted newer_first (insert_desc v l).
Proof.
  induction 1 as [|w l Hs IH Hw]; simpl.
  - repeat constructor.
  - destruct (Z.leb_spec (createdAt w) (createdAt v)) as [Hle|Hlt].
    + constructor; [now constructor|].
      constructor; [exact Hle|].
      rewrite Forall_forall in *; intros x Hx.
      specialize (Hw x Hx); unfold newer_first in *; lia.
    + constructor; [assumption|].
      rewrite Forall_forall in *; intros x Hx.
      apply insert_desc_In in Hx; destruct Hx as [->|Hx]; auto.
      unfold newer_first; lia.
Qed.

(** The sort gives the same records, newest first. *)
Lemma sort_createdAt_desc_spec (l : list Vehicle) :
  StronglySorted newer_first (sort_createdAt_desc l)
  /\ forall x, In x (sort_createdAt_desc l) <-> In x l.
Proof.
  induction l as [|v l [IH1 IH2]]; simpl.
  - split; [constructor | tauto].
  - split; [now apply insert_desc_sorted|].
    intros x; rewrite insert_desc_In, IH2; intuition.
Qed.

Lemma insert_desc_perm (v : Vehicle) (l : list Vehicle) :
  Permutation (insert_desc v l) (v :: l).
Proof.
  induction l as [|w l IH]; simpl; [reflexivity|].
  destruct (createdAt w <=? createdAt v)%Z; [reflexivity|].
  rewrite IH; apply perm_swap.
Qed.

Lemma sort_createdAt_desc_perm (l : list Vehicle) :
  Permutation (sort_createdAt_desc l) l.
Proof.
  induction l as [|v l IH]; simpl; [reflexivity|].
  now rewrite insert_desc_perm, IH.
Qed.

Lemma firstn_In {A : Type} (n : nat) (l : list A) (x : A) :
  In x (firstn n l) -> In x l.
Proof.
  revert l; induction n as [|n IH]; intros [|y l]; simpl; try tauto.
  intros [->|H]; auto.
Qed.

Lemma skipn_In {A : Type} (n : nat) (l : list A) (x : A) :
  In x (skipn n l) -> In x l.
Proof.
  revert l; induction n as [|n IH]; intros [|y l]; simpl; try tauto.
  intros H; right; auto.
Qed.

Lemma StronglySorted_skipn {A : Type} (R : A -> A -> Prop) (n : nat)
  (l : list A) :
  StronglySorted R l -> StronglySorted R (skipn n l).
Proof.
  revert l; induction n as [|n IH]; intros l H; [assumption|].
  destruct l as [|x l]; [constructor|].
  simpl; apply IH; now inversion H.
Qed.

Lemma StronglySorted_firstn {A : Type} (R : A -> A -> Prop) (n : nat)
  (l : list A) :
  StronglySorted R l -> StronglySorted R (firstn n l).
Proof.
  revert l; induction n as [|n IH]; intros l H; [constructor|].
  destruct l as [|x l]; [constructor|].
  inversion H as [|? ? Hs Hx]; subst; simpl; constructor; [auto|].
  rewrite Forall_forall in *; intros y Hy; apply Hx.
  now apply (firstn_In n l).
Qed.


(** *** The store under [save] *)

Lemma update_first_ids (id : string) (f : Vehicle -> Vehicle)
  (l : list Vehicle) :
  (forall w, _id w = id -> _id (f w) = id) ->
  map _id (update_first id f l) = map _id l.
Proof.
  intros H; induction l as [|w l IH]; simpl; [reflexivity|].
  destruct (String.eqb_spec (_id w) id) as [E|E]; simpl.
  - now rewrite (H w E), E.
  - now rewrite IH.
Qed.

(** With distinct ids, [save] touches the one document with the id. *)
Lemma update_first_map (id : string) (f : Vehicle -> Vehicle)
  (l : list Vehicle) :
  NoDup (map _id l) ->
  update_first id f l
  = map (fun w => if String.eqb (_id w) id then f w else w) l.
Proof.
  induction l as [|w l IH]; simpl; [reflexivity|].
  intros H; inversion H as [|? ? Hw Hl]; subst.
  destruct (String.eqb_spec (_id w) id) as [E|E].
  - f_equal.
    transitivity (map (fun x : Vehicle => x) l); [symmetry; apply map_id|].
    apply map_ext_in; intros x Hx.
    destruct (String.eqb_spec (_id x) id) as [Ex|_]; [|reflexivity].
    elim Hw; rewrite E, <- Ex; now apply in_map.
  - now rewrite IH.
Qed.

Section More.

Variable regex_test : string -> string -> bool.
Variable generateVehicleImage : ImageRequest -> ProviderResult.

Abbreviation matches := (Vehicles.matches regex_test).
Abbreviation Vehicle_find := (Vehicles.Vehicle_find regex_test).
Abbreviation Vehicle_findOne := (Vehicles.Vehicle_findOne regex_test).
Abbreviation get_vehicle := (Vehicles.get_vehicle regex_test).
Abbreviation generate_image :=
  (Vehicles.generate_image regex_test generateVehicleImage).
Abbreviation listed := (Vehicles.listed regex_test).

(** A filter does not read the image of a vehicle. *)
Lemma matches_set_imageUrl (q : Query) (url : string) (w : Vehicle) :
  matches q (set_imageUrl url w) = matches q w.
Proof.
  assert (Hc : forall c, Vehicles.clause_matches regex_test c
                           (set_imageUrl url w)
                         = Vehicles.clause_matches regex_test c w).
  { intros [o|o|[] pattern]; reflexivity. }
  assert (Ho : forall cs, Vehicles.or_matches regex_test cs
                            (set_imageUrl url w)
                          = Vehicles.or_matches regex_test cs w).
  { intros cs; unfold Vehicles.or_matches.
    induction cs as [|c cs IH]; simpl; [reflexivity|].
    now rewrite Hc, IH. }
  unfold Vehicles.matches.
  destruct (q_or q) as [cs|], (q_and q) as [ors|]; simpl;
    rewrite ?Ho; try reflexivity; f_equal;
    induction ors as [|cs' ors IH]; simpl; try reflexivity;
    now rewrite Ho, IH.
Qed.

(** *** POST /generate-image *)

(** X5. Validation answers before anything else is looked at: a
    request is refused exactly when the vehicle id, the make or the
    model is empty or the year is not numeric; the answer is then the
    message of the first failing field, in the order vehicle id, make,
    model, year, whatever the store and the provider are, and the store
    is left as it was. *)
Theorem generate_image_validation (p : Principal) (b : GenerateImageBody)
  (s : Store) :
  (validationResult b = [] <->
   body_vehicleId b <> EmptyString /\ body_make b <> EmptyString
   /\ body_model b <> EmptyString /\ isNumeric (body_year b) = true)
  /\ (validationResult b <> [] ->
      generate_image p b s
      = (validation_error
           (if negb (notEmpty (body_vehicleId b)) then "Vehicle ID is required"
            else if negb (notEmpty (body_make b)) then "Make is required"
            else if negb (notEmpty (body_model b)) then "Model is required"
            else "Year must be a number"),
         s)).
Proof.
  rewrite (VehiclesFacts.generate_image_cases regex_test
             generateVehicleImage p b s).
  unfold validationResult, notEmpty, check.
  destruct (body_vehicleId b) as [|c1 s1], (body_make b) as [|c2 s2],
    (body_model b) as [|c3 s3], (isNumeric (body_year b));
    simpl; split; try (split; [discriminate | intuition congruence]);
    try reflexivity; try (intros H; now elim H).
  split; [intros _; repeat split; discriminate | reflexivity].
Qed.

(** X6. A request that passes validation, names a vehicle the caller
    may access and is answered by the provider stores the image on that
    vehicle and on no other, writes exactly one audit entry (actor,
    organization, action, target and image of the request), leaves the
    users alone and answers with the id and the image. *)
Theorem generate_image_stores_image (p : Principal) (b : GenerateImageBody)
  (s : Store) (v : Vehicle) (url : string) :
  NoDup (map _id (vehicles s)) ->
  validationResult b = [] ->
  Vehicle_findOne (generate_image_query p (body_vehicleId b)) s = Some v ->
  generateVehicleImage (image_request b v) = Resolved url ->
  fst (generate_image p b s)
  = image_generated (body_vehicleId b) (Some url)
  /\ status_code (fst (generate_image p b s)) = 200%Z
  /\ vehicles (snd (generate_image p b s))
     = map (fun w => if String.eqb (_id w) (body_vehicleId b)
                     then set_imageUrl url w else w)
         (vehicles s)
  /\ auditLog (snd (generate_image p b s))
     = auditLog s ++ [generate_image_audit p b url]
  /\ users (snd (generate_image p b s)) = users s.
Proof.
  intros Hnd Hv Hf Hg.
  rewrite (VehiclesFacts.generate_image_cases regex_test
             generateVehicleImage p b s), Hv, Hf, Hg.
  apply find_some in Hf; destruct Hf as [Hin Hm].
  apply (VehiclesFacts.get_vehicle_query_matches regex_test) in Hm.
  destruct Hm as [Hid _].
  cbn [fst snd status_code AuditLog_create Vehicle_save vehicles users
         auditLog].
  change (_id (set_imageUrl url v)) with (_id v); rewrite Hid.
  repeat split.
  rewrite (update_first_map _ _ _ Hnd).
  apply map_ext_in; intros w Hw.
  destruct (String.eqb_spec (_id w) (body_vehicleId b)) as [E|_];
    [|reflexivity].
  now rewrite (VehiclesFacts.unique_id _ w v Hnd Hw Hin) by congruence.
Qed.

Abbreviation generate_image_with :=
  (Vehicles.generate_image_with regex_test generateVehicleImage).

(** Image generation over a store whose calls may throw, with the monad
    unfolded. *)
Lemma generate_image_with_cases (f : Faults) (p : Principal)
  (b : GenerateImageBody) (s : Store) :
  generate_image_with f p b s =
  match validationResult b with
  | msg :: _ => (validation_error msg, s)
  | [] =>
      match findOne_fault f with
      | Some e => (generate_image_catch e, s)
      | None =>
          match Vehicle_findOne
                  (generate_image_query p (body_vehicleId b)) s with
          | None => (vehicle_not_found, s)
          | Some v =>
              match generateVehicleImage (image_request b v) with
              | Rejected e => (generate_image_catch e, s)
              | Resolved url =>
                  match save_fault f with
                  | Some e => (generate_image_catch e, s)
                  | None =>
                      match create_fault f with
                      | Some e =>
                          (generate_image_catch e,
                           Vehicle_save (set_imageUrl url v) s)
                      | None =>
                          (image_generated (_id v) (Some url),
                           AuditLog_create (generate_image_audit p b url)
                             (Vehicle_save (set_imageUrl url v) s))
                      end
                  end
              end
          end
      end
  end.
Proof.
  unfold Vehicles.generate_image_with, try_catch,
    Vehicles.generate_image_try_with, bind, attempt, query, respond, ret,
    update, throw.
  destruct (validationResult b) as [|msg rest]; [|reflexivity].
  destruct (findOne_fault f); [reflexivity|].
  destruct (Vehicle_findOne _ s) as [v|]; [|reflexivity].
  unfold await, ret, throw.
  destruct (generateVehicleImage (image_request b v)); [|reflexivity].
  destruct (save_fault f); [reflexivity|].
  destruct (create_fault f); reflexivity.
Qed.

Lemma generate_image_catch_error (e : string) (id : string)
  (url : option string) :
  generate_image_catch e <> image_generated id url
  /\ (status_code (generate_image_catch e) = 429%Z
      \/ status_code (generate_image_catch e) = 500%Z).
Proof.
  unfold generate_image_catch.
  destruct (JS.includes "quota" e || JS.includes "rate limit" e);
    split; try discriminate; auto.
Qed.

(** X7. Whatever the request, and whichever call to the store throws,
    image generation keeps the users and the ids of the vehicles and
    appends at most one audit entry.  An answer other than the
    generated image (the only 200) leaves the audit log as it was, and
    the whole store too unless it is the audit write that threw: then
    the image is already saved on the vehicle while the answer is an
    error.  With a store that never throws this is [generate_image]. *)
Theorem generate_image_frame (f : Faults) (p : Principal)
  (b : GenerateImageBody) (s : Store) :
  users (snd (generate_image_with f p b s)) = users s
  /\ map _id (vehicles (snd (generate_image_with f p b s)))
     = map _id (vehicles s)
  /\ (auditLog (snd (generate_image_with f p b s)) = auditLog s
      \/ exists e, auditLog (snd (generate_image_with f p b s))
                   = auditLog s ++ [e])
  /\ ((forall id url,
          fst (generate_image_with f p b s) <> image_generated id url) ->
      auditLog (snd (generate_image_with f p b s)) = auditLog s
      /\ (create_fault f = None -> snd (generate_image_with f p b s) = s))
  /\ (status_code (fst (generate_image_with f p b s)) = 200%Z <->
      exists id url,
        fst (generate_image_with f p b s) = image_generated id url)
  /\ (forall v url e,
         validationResult b = [] -> findOne_fault f = None ->
         Vehicle_findOne (generate_image_query p (body_vehicleId b)) s
         = Some v ->
         generateVehicleImage (image_request b v) = Resolved url ->
         save_fault f = None -> create_fault f = Some e ->
         fst (generate_image_with f p b s) = generate_image_catch e
         /\ (status_code (fst (generate_image_with f p b s)) = 429%Z
             \/ status_code (fst (generate_image_with f p b s)) = 500%Z)
         /\ vehicles (snd (generate_image_with f p b s))
            = update_first (_id v) (fun _ => set_imageUrl url v)
                (vehicles s)
         /\ auditLog (snd (generate_image_with f p b s)) = auditLog s)
  /\ generate_image_with no_faults p b s = generate_image p b s.
Proof.
  assert (Herr : forall e (t : Store),
             let r := (generate_image_catch e, t) in
             ((forall id url, fst r <> image_generated id url) ->
              auditLog t = auditLog s /\ (create_fault f = None -> t = s)) ->
             auditLog t = auditLog s ->
             (auditLog t = auditLog s
              \/ exists e', auditLog t = auditLog s ++ [e'])
             /\ ((forall id url, fst r <> image_generated id url) ->
                 auditLog t = auditLog s
                 /\ (create_fault f = None -> t = s))
             /\ (status_code (fst r) = 200%Z <->
                 exists id url, fst r = image_generated id url)).
  { intros e t r H Ha; split; [now left|]; split; [exact H|].
    subst r; cbn [fst]; split.
    - intros H2; destruct (generate_image_catch_error e "" None) as [_ [E|E]];
        rewrite E in H2; discriminate.
    - intros (id & url & E).
      now destruct (generate_image_catch_error e id url). }
  split; [|split]; [| |split; [|split; [|split; [|split]]]].
  - rewrite generate_image_with_cases.
    destruct (validationResult b); [|reflexivity].
    destruct (findOne_fault f); [reflexivity|].
    destruct (Vehicle_findOne _ s) as [v|]; [|reflexivity].
    destruct (generateVehicleImage _); [|reflexivity].
    destruct (save_fault f); [reflexivity|].
    destruct (create_fault f); reflexivity.
  - rewrite generate_image_with_cases.
    destruct (validationResult b); [|reflexivity].
    destruct (findOne_fault f); [reflexivity|].
    destruct (Vehicle_findOne _ s) as [v|]; [|reflexivity].
    destruct (generateVehicleImage _); [|reflexivity].
    destruct (save_fault f); [reflexivity|].
    destruct (create_fault f); cbn [snd AuditLog_create Vehicle_save vehicles];
      apply update_first_ids; intros w _; reflexivity.
  - rewrite generate_image_with_cases.
    destruct (validationResult b); [|now left].
    destruct (findOne_fault f); [now left|].
    destruct (Vehicle_findOne _ s) as [v|]; [|now left].
    destruct (generateVehicleImage _); [|now left].
    destruct (save_fault f); [now left|].
    destruct (create_fault f); [now left|].
    right; eexists; reflexivity.
  - rewrite generate_image_with_cases.
    destruct (validationResult b); [|now intros _].
    destruct (findOne_fault f); [now intros _|].
    destruct (Vehicle_findOne _ s) as [v|]; [|now intros _].
    destruct (generateVehicleImage _) as [url|e]; [|now intros _].
    destruct (save_fault f); [now intros _|].
    destruct (create_fault f).
    + intros _; split; [reflexivity | discriminate].
    + intros H; now elim (H (_id v) (Some url)).
  - rewrite generate_image_with_cases.
    destruct (validationResult b);
      [|split; [discriminate | intros (? & ? & ?); discriminate]].
    destruct (findOne_fault f) as [e|];
      [apply (Herr e s); [now intros _|reflexivity]|].
    destruct (Vehicle_findOne _ s) as [v|];
      [|split; [discriminate | intros (? & ? & ?); discriminate]].
    destruct (generateVehicleImage _) as [url|e];
      [|apply (Herr e s); [now intros _|reflexivity]].
    destruct (save_fault f) as [e|];
      [apply (Herr e s); [now intros _|reflexivity]|].
    destruct (create_fault f) as [e|] eqn:Ec.
    + cbn [fst]; split.
      * intros H2; destruct (generate_image_catch_error e "" None)
          as [_ [E|E]]; rewrite E in H2; discriminate.
      * intros (id & u & E).
        now destruct (generate_image_catch_error e id u).
    + cbn [fst status_code]; split; [|reflexivity].
      intros _; now exists (_id v), (Some url).
  - intros v url e Hv Hf Hfind Hg Hs Hc.
    rewrite generate_image_with_cases, Hv, Hf, Hfind, Hg, Hs, Hc.
    cbn [fst snd Vehicle_save vehicles auditLog].
    split; [reflexivity|]; split;
      [exact (proj2 (generate_image_catch_error e "" None))|].
    split; reflexivity.
  - rewrite generate_image_with_cases.
    rewrite (VehiclesFacts.generate_image_cases regex_test
               generateVehicleImage p b s).
    reflexivity.
Qed.

(** X8. Write, then read: after an image was generated, get-by-id of
    the same caller for the same id answers with the vehicle carrying
    the new image. *)
Theorem generate_image_then_get (p : Principal) (b : GenerateImageBody)
  (s : Store) (v : Vehicle) (url : string) :
  NoDup (map _id (vehicles s)) ->
  validationResult b = [] ->
  Vehicle_findOne (generate_image_query p (body_vehicleId b)) s = Some v ->
  generateVehicleImage (image_request b v) = Resolved url ->
  get_vehicle p (body_vehicleId b) (snd (generate_image p b s))
  = vehicle_data (set_imageUrl url v).
Proof.
  intros Hnd Hv Hf Hg.
  rewrite (VehiclesFacts.generate_image_cases regex_test
             generateVehicleImage p b s), Hv, Hf, Hg.
  pose proof Hf as Hf'.
  apply find_some in Hf'; destruct Hf' as [Hin Hm].
  apply (VehiclesFacts.get_vehicle_query_matches regex_test) in Hm.
  destruct Hm as [Hid _].
  unfold Vehicles.get_vehicle, Vehicles.Vehicle_findOne.
  cbn [snd AuditLog_create Vehicle_save vehicles].
  rewrite (update_first_map _ _ _ Hnd).
  rewrite find_map.
  - unfold Vehicles.Vehicle_findOne in Hf.
    change (get_vehicle_query p (body_vehicleId b))
      with (generate_image_query p (body_vehicleId b)).
    rewrite Hf; cbn [option_map].
    change (_id (set_imageUrl url v)) with (_id v).
    now rewrite String.eqb_refl.
  - intros w Hw.
    change (_id (set_imageUrl url v)) with (_id v).
    destruct (String.eqb_spec (_id w) (_id v)) as [Ew|_]; [|reflexivity].
    rewrite (VehiclesFacts.unique_id _ w v Hnd Hw Hin Ew).
    apply matches_set_imageUrl.
Qed.

(** X9. Image generation and get-by-id resolve vehicles alike: a
    request that passes validation is answered not-found by the one
    exactly when the other answers not-found for the same caller and
    id. *)
Theorem generate_image_agrees_with_get (p : Principal)
  (b : GenerateImageBody) (s : Store) :
  validationResult b = [] ->
  (fst (generate_image p b s) = vehicle_not_found <->
   get_vehicle p (body_vehicleId b) s = vehicle_not_found).
Proof.
  intros Hv.
  rewrite (VehiclesFacts.generate_image_cases regex_test
             generateVehicleImage p b s), Hv.
  unfold Vehicles.get_vehicle.
  change (get_vehicle_query p (body_vehicleId b))
    with (generate_image_query p (body_vehicleId b)).
  destruct (Vehicle_findOne _ s) as [v|]; [|tauto].
  destruct (generateVehicleImage (image_request b v)) as [url|message];
    cbn [fst]; [split; discriminate|].
  unfold generate_image_catch.
  destruct (JS.includes "quota" message || JS.includes "rate limit" message);
    split; discriminate.
Qed.

(** X10. The provider is never asked for an empty colour: it gets the
    colour of the request when there is one, else the stored colour of
    the vehicle when there is one, else "silver". *)
Theorem image_request_color (b : GenerateImageBody) (v : Vehicle) :
  image_color (image_request b v) <> EmptyString
  /\ (body_color b <> EmptyString ->
      image_color (image_request b v) = body_color b)
  /\ (body_color b = EmptyString ->
      forall c, color v = Some c -> c <> EmptyString ->
                image_color (image_request b v) = c)
  /\ (body_color b = EmptyString ->
      color v = None \/ color v = Some EmptyString ->
      image_color (image_request b v) = "silver").
Proof.
  unfold image_request; cbn [image_color].
  unfold JS.or_default, JS.or_opt, JS.truthy_opt.
  destruct (body_color b) as [|c1 s1]; cbn [JS.truthy].
  - destruct (color v) as [[|c2 s2]|]; cbn [JS.truthy];
      (split; [discriminate|]); (split; [intros H; now elim H|]); split.
    + intros _ c [= <-] H; now elim H.
    + intros _ _; reflexivity.
    + now intros _ c [= <-] _.
    + intros _ [H|H]; discriminate.
    + intros _ c [=].
    + intros _ _; reflexivity.
  - split; [discriminate|]; split; [intros _; reflexivity|].
    split; intros; discriminate.
Qed.

(** *** GET /:vehicleId *)

(** X11. Get-by-id answers not-found exactly when no vehicle with the
    id passes the owner-or-organization match, and otherwise answers
    with a vehicle of the store that has the requested id and passes
    the match: it never discloses another vehicle. *)
Theorem get_vehicle_not_found (p : Principal) (id : string) (s : Store) :
  (get_vehicle p id s = vehicle_not_found <->
   forall v, In v (vehicles s) -> _id v = id -> ~ has_access p v)
  /\ (forall v, get_vehicle p id s = vehicle_data v ->
                In v (vehicles s) /\ _id v = id /\ has_access p v)
  /\ (get_vehicle p id s = vehicle_not_found
      \/ exists v, get_vehicle p id s = vehicle_data v).
Proof.
  unfold Vehicles.get_vehicle, Vehicles.Vehicle_findOne.
  destruct (find _ _) as [w|] eqn:E.
  - apply find_some in E; destruct E as [Hin Hm].
    apply (VehiclesFacts.get_vehicle_query_matches regex_test) in Hm.
    destruct Hm as [Hid Hacc].
    split; [|split].
    + split; [discriminate|].
      intros H; elim (H w Hin Hid Hacc).
    + intros v [= <-]; auto.
    + right; now exists w.
  - split; [|split].
    + split; [|reflexivity].
      intros _ v Hin Hid Hacc.
      pose proof (find_none _ _ E v Hin) as Hn.
      assert (Hm : matches (get_vehicle_query p id) v = true)
        by (apply VehiclesFacts.get_vehicle_query_matches; auto).
      congruence.
    + intros v [=].
    + now left.
Qed.


(** *** GET /clients *)

Abbreviation clients_vehicles := (Vehicles.clients_vehicles regex_test).
Abbreviation roster := (Vehicles.roster regex_test).
Abbreviation clients := (Vehicles.clients regex_test).

Lemma clients_query_matches (org : string) (v : Vehicle) :
  matches (clients_query org) v = true <->
  isActive v = true /\ orgId v = Some org.
Proof.
  unfold Vehicles.matches, clients_query.
  cbn [q_id q_or q_isActive q_ownerUserId q_orgId q_and
         Vehicles.key_matches].
  rewrite !andb_true_r, andb_true_l, andb_true_iff,
    VehiclesFacts.opt_eqb_eq.
  now destruct (isActive v).
Qed.

(** The vehicles the roster is built from. *)
Lemma clients_vehicles_In (org : string) (s : Store) (pv : Populated) :
  In pv (clients_vehicles org s) <->
  exists v, pv = populate s v /\ In v (vehicles s)
            /\ isActive v = true /\ orgId v = Some org.
Proof.
  unfold Vehicles.clients_vehicles, Vehicles.Vehicle_find.
  rewrite in_map_iff; split.
  - intros [v [E Hv]]; apply filter_In in Hv; destruct Hv as [Hin Hm].
    apply clients_query_matches in Hm; exists v; intuition.
  - intros [v (E & Hin & Ha & Ho)]; exists v; split; [auto|].
    apply filter_In; split; [assumption|].
    now apply clients_query_matches.
Qed.

Lemma User_findById_spec (id : string) (s : Store) (u : User) :
  User_findById id s = Some u -> In u (users s) /\ user_id u = id.
Proof.
  unfold User_findById; intros H; apply find_some in H.
  destruct H as [Hin E]; apply String.eqb_eq in E; auto.
Qed.

Lemma User_findById_exists (id : string) (s : Store) :
  (exists u, In u (users s) /\ user_id u = id) ->
  exists u, User_findById id s = Some u.
Proof.
  intros [u [Hin E]]; unfold User_findById.
  destruct (find _ _) as [u'|] eqn:F; [now exists u'|].
  pose proof (find_none _ _ F u Hin) as Hn; simpl in Hn.
  rewrite E, String.eqb_refl in Hn; discriminate.
Qed.

(** Every key a vehicle brings is first brought by some vehicle. *)
Lemma first_seen_exists (pvs : list Populated) (pv : Populated)
  (k : string) (c0 : Client) :
  In pv pvs -> client_of pv = Some (k, c0) ->
  exists c, first_seen pvs k c.
Proof.
  induction pvs as [|pv0 pvs IH]; [intros []|].
  intros Hin Hc.
  destruct (client_of pv0) as [[k' c']|] eqn:E0.
  - destruct (string_dec k' k) as [->|Hne].
    + exists c'; apply VehiclesFacts.first_seen_cons; now left.
    + destruct Hin as [->|Hin]; [congruence|].
      destruct (IH Hin Hc) as [c Hfs]; exists c.
      apply VehiclesFacts.first_seen_cons; right; split; [|assumption].
      rewrite E0; intros c'' [= E _]; congruence.
  - destruct Hin as [->|Hin]; [congruence|].
    destruct (IH Hin Hc) as [c Hfs]; exists c.
    apply VehiclesFacts.first_seen_cons; right; split; [|assumption].
    rewrite E0; discriminate.
Qed.

(** The entries of the roster are the first-seen entries of its
    vehicles. *)
Lemma roster_In (org : string) (s : Store) (c : Client) :
  In c (roster org s) <->
  exists k, first_seen (clients_vehicles org s) k c.
Proof.
  unfold Vehicles.roster, Map_values, build_clientsMap.
  destruct (VehiclesFacts.clients_fold (clients_vehicles org s) []
              (NoDup_nil _)) as [_ Hin].
  rewrite in_map_iff; split.
  - intros [[k c'] [E He]]; simpl in E; subst c'.
    apply Hin in He; destruct He as [[]|[_ He]]; now exists k.
  - intros [k H]; exists (k, c); split; [reflexivity|].
    apply Hin; right; split; [reflexivity | assumption].
Qed.

(** X12. The roster is sound and complete for the organization: every
    entry comes from an active vehicle of the organization, a
    registered entry from one whose owning user exists, an embedded
    entry from one with a named embedded owner; and every active
    vehicle of the organization whose owning user exists, or that has
    no owning user but a named embedded owner, has an entry under its
    key. *)
Theorem roster_sound_complete (org : string) (s : Store) :
  (forall c, In c (roster org s) ->
     exists v, In v (vehicles s) /\ isActive v = true
               /\ orgId v = Some org
               /\ ((client_type c = registered
                    /\ ownerUserId v = Some (client_id c)
                    /\ exists u, In u (users s)
                                 /\ user_id u = client_id c)
                   \/ (client_type c = embedded
                       /\ exists oi, ownerInfo v = Some oi
                                     /\ oi_name oi = Some (client_name c)
                                     /\ client_id c = embedded_key oi)))
  /\ (forall v uid,
        In v (vehicles s) -> isActive v = true -> orgId v = Some org ->
        ownerUserId v = Some uid ->
        (exists u, In u (users s) /\ user_id u = uid) ->
        exists c, In c (roster org s) /\ client_id c = uid)
  /\ (forall v oi,
        In v (vehicles s) -> isActive v = true -> orgId v = Some org ->
        ownerUserId v = None -> ownerInfo v = Some oi ->
        JS.truthy_opt (oi_name oi) = true ->
        exists c, In c (roster org s) /\ client_id c = embedded_key oi).
Proof.
  split; [|split].
  - intros c Hc; apply roster_In in Hc.
    destruct Hc as (k & before & pv & after & E & Hcl & _).
    assert (Hpv : In pv (clients_vehicles org s))
      by (rewrite E; apply in_elt).
    apply clients_vehicles_In in Hpv.
    destruct Hpv as (v & -> & Hin & Ha & Ho).
    exists v; repeat (split; [assumption|]).
    unfold client_of, populate in Hcl; cbn [owner doc] in Hcl.
    destruct (ownerUserId v) as [uid|] eqn:Eu.
    + destruct (User_findById uid s) as [u|] eqn:Ef.
      * apply User_findById_spec in Ef; destruct Ef as [Hu Hid].
        injection Hcl as <- <-; left.
        cbn [client_type client_id registered_client].
        rewrite Hid; split; [reflexivity|]; split; [reflexivity|].
        exists u; auto.
      * destruct (ownerInfo v) as [oi|]; [|discriminate].
        destruct (oi_name oi) as [[|a name]|] eqn:En; try discriminate.
        injection Hcl as <- <-; right; split; [reflexivity|].
        exists oi; auto.
    + destruct (ownerInfo v) as [oi|]; [|discriminate].
      destruct (oi_name oi) as [[|a name]|] eqn:En; try discriminate.
      injection Hcl as <- <-; right; split; [reflexivity|].
      exists oi; auto.
  - intros v uid Hin Ha Ho Hu Hex.
    destruct (User_findById_exists uid s Hex) as [u Hf].
    assert (Hcl : client_of (populate s v)
                  = Some (user_id u, registered_client u)).
    { unfold client_of, populate; cbn [owner doc]; now rewrite Hu, Hf. }
    apply User_findById_spec in Hf; destruct Hf as [_ Hid].
    assert (Hpv : In (populate s v) (clients_vehicles org s)).
    { apply clients_vehicles_In; exists v; auto. }
    destruct (first_seen_exists _ _ _ _ Hpv Hcl) as [c Hfs].
    exists c; split; [apply roster_In; now exists (user_id u)|].
    destruct Hfs as (_ & pv' & _ & _ & Hc' & _).
    apply VehiclesFacts.client_of_id in Hc'; congruence.
  - intros v oi Hin Ha Ho Hu Hoi Hn.
    destruct (oi_name oi) as [[|a name]|] eqn:En; try discriminate.
    assert (Hcl : client_of (populate s v)
                  = Some (embedded_key oi,
                          embedded_client (String a name) oi)).
    { unfold client_of, populate; cbn [owner doc].
      now rewrite Hu, Hoi, En. }
    assert (Hpv : In (populate s v) (clients_vehicles org s)).
    { apply clients_vehicles_In; exists v; auto. }
    destruct (first_seen_exists _ _ _ _ Hpv Hcl) as [c Hfs].
    exists c; split; [apply roster_In; now exists (embedded_key oi)|].
    destruct Hfs as (_ & pv' & _ & _ & Hc' & _).
    now apply VehiclesFacts.client_of_id in Hc'.
Qed.

Lemma or_default_nonempty (a : option string) (d : string) :
  d <> EmptyString -> JS.or_default a d <> EmptyString.
Proof.
  intros Hd; unfold JS.or_default.
  destruct a as [[|c s]|]; simpl; auto; discriminate.
Qed.

(** X13. No roster entry is nameless, and the id of an embedded entry
    starts with "info_", the prefix that keeps the keys of embedded
    owners apart from user ids. *)
Theorem roster_entries_named (org : string) (s : Store) (c : Client) :
  In c (roster org s) ->
  client_name c <> EmptyString
  /\ (client_type c = embedded ->
      String.prefix "info_" (client_id c) = true).
Proof.
  intros Hc; apply roster_In in Hc.
  destruct Hc as (k & before & pv & after & _ & Hcl & _).
  unfold client_of in Hcl.
  destruct (owner pv) as [u|].
  - injection Hcl as <- <-.
    cbn [client_name client_type registered_client].
    split; [apply or_default_nonempty; discriminate | discriminate].
  - destruct (ownerInfo (doc pv)) as [oi|]; [|discriminate].
    destruct (oi_name oi) as [[|a name]|]; try discriminate.
    injection Hcl as <- <-.
    cbn [client_name client_type client_id embedded_client].
    split; [discriminate|].
    intros _; apply JSFacts.prefix_app.
    now exists (JS.interpolate (JS.or_opt (oi_phone oi) (oi_email oi))).
Qed.


Lemma clients_fold_length (vs : list Populated)
  (acc : list (string * Client)) :
  (List.length (fold_left clients_step vs acc)
   <= List.length acc + List.length vs)%nat.
Proof.
  revert acc; induction vs as [|pv vs IH]; intros acc; simpl; [lia|].
  specialize (IH (clients_step acc pv)).
  assert (H : (List.length (clients_step acc pv) <= S (List.length acc))%nat).
  { unfold clients_step.
    destruct (client_of pv) as [[k c]|]; [|lia].
    destruct (Map_has k acc) eqn:E; [lia|].
    rewrite (VehiclesFacts.Map_set_fresh _ _ _ E), length_app; simpl; lia. }
  lia.
Qed.

(** X14. The roster is refused with a bad request exactly when the
    caller has no organization, whatever the store holds; otherwise the
    answer counts its own entries, and there are never more entries
    than active vehicles of the organization. *)
Theorem clients_missing_org (p : Principal) (s : Store) :
  (clients p s = bad_request "Organization ID required" <->
   JS.truthy_opt (req_user_orgId p) = false)
  /\ (forall data total,
        clients p s = clients_data data total ->
        total = List.length data
        /\ (total <= List.length
                       (filter (fun v => isActive v
                                         && opt_eqb (orgId v)
                                              (req_user_orgId p))
                          (vehicles s)))%nat).
Proof.
  unfold Vehicles.clients.
  destruct (req_user_orgId p) as [[|a org]|]; cbn [JS.truthy_opt JS.truthy].
  - split; [tauto | discriminate].
  - split; [split; discriminate|].
    intros data total [= <- <-]; split; [reflexivity|].
    unfold Map_values, build_clientsMap; rewrite length_map.
    pose proof (clients_fold_length
                  (clients_vehicles (String a org) s) []) as H.
    simpl in H.
    unfold Vehicles.clients_vehicles, Vehicles.Vehicle_find in H.
    rewrite length_map in H.
    etransitivity; [exact H|].
    apply filter_length_le; intros v Hv.
    apply clients_query_matches in Hv; destruct Hv as [Ha Ho].
    rewrite Ha, Ho; cbn [andb]; now apply VehiclesFacts.opt_eqb_eq.
  - split; [tauto | discriminate].
Qed.

(** *** GET /metrics *)

Abbreviation metrics_locals := (Vehicles.metrics_locals regex_test).

Lemma Set_from_length (l acc : list string) :
  (List.length (fold_left Set_add l acc)
   <= List.length acc + List.length l)%nat.
Proof.
  revert acc; induction l as [|x l IH]; intros acc; simpl; [lia|].
  specialize (IH (Set_add acc x)).
  assert (H : (List.length (Set_add acc x) <= S (List.length acc))%nat).
  { unfold Set_add; destruct (Set_has x acc); [lia|].
    rewrite length_app; simpl; lia. }
  lia.
Qed.

Lemma filter_Boolean_length (l : list (option string)) :
  (List.length (filter_Boolean l) <= List.length l)%nat.
Proof.
  induction l as [|[[|c x]|] l IH]; simpl; lia.
Qed.

(** X15. The numbers of the metrics are ordered: no more active than
    total vehicles, no more owning users than vehicles, and, the ids of
    the users being distinct, no more active users than owning
    users. *)
Theorem metrics_bounds (p : Principal) (s : Store) :
  (l_activeCars (metrics_locals p s) <= l_totalCars (metrics_locals p s))%nat
  /\ (l_totalUsers (metrics_locals p s)
      <= l_totalCars (metrics_locals p s))%nat
  /\ (NoDup (map user_id (users s)) ->
      (l_activeUsers (metrics_locals p s)
       <= l_totalUsers (metrics_locals p s))%nat).
Proof.
  unfold Vehicles.metrics_locals.
  cbn [l_totalCars l_activeCars l_uniqueUsers l_totalUsers l_activeUsers].
  unfold Vehicles.Vehicle_countDocuments, Vehicles.Vehicle_find.
  split; [|split].
  - apply filter_length_le; intros v.
    rewrite (VehiclesFacts.metrics_active_query_matches regex_test),
      (VehiclesFacts.metrics_query_matches regex_test), andb_true_iff.
    tauto.
  - unfold Set_from.
    pose proof (Set_from_length
                  (filter_Boolean
                     (map ownerUserId
                        (filter (matches (metrics_query p)) (vehicles s))))
                  []) as H1.
    pose proof (filter_Boolean_length
                  (map ownerUserId
                     (filter (matches (metrics_query p)) (vehicles s))))
      as H2.
    rewrite length_map in H2; simpl in H1; lia.
  - intros Hnd; unfold User_countActiveIn.
    set (ids := Set_from _).
    set (active := filter _ (users s)).
    rewrite <- (length_map user_id active).
    apply NoDup_incl_length.
    + now apply kept_user_ids_distinct.
    + intros id Hid; apply in_map_iff in Hid.
      destruct Hid as [u [<- Hu]].
      apply filter_In in Hu; destruct Hu as [_ Hu].
      apply andb_true_iff in Hu; destruct Hu as [Hu _].
      now apply VehiclesFacts.Set_has_In.
Qed.


(** *** GET / *)

Abbreviation list_vehicles := (Vehicles.list_vehicles regex_test).
Abbreviation list_page := (Vehicles.list_page regex_test).

(** The page of a well-formed request. *)
Lemma list_page_some (q : Query) (pg l : Z) (s : Store) :
  (1 <= pg)%Z -> (1 <= l)%Z ->
  list_page q pg l s
  = Some (firstn (Z.to_nat l)
            (skipn (Z.to_nat ((pg - 1) * l))
               (sort_createdAt_desc (Vehicle_find q s)))).
Proof.
  intros Hpg Hl; unfold Vehicles.list_page, cursor_skip, cursor_limit.
  assert (E1 : ((pg - 1) * l <? 0)%Z = false) by (apply Z.ltb_ge; nia).
  assert (E2 : (l =? 0)%Z = false) by (apply Z.eqb_neq; lia).
  rewrite E1; cbn [option_map]; rewrite E2, Z.abs_eq by lia.
  reflexivity.
Qed.

(** The answer built from a page. *)
Lemma list_vehicles_of_page (p : Principal) (r : ListParams) (s : Store)
  (found : list Vehicle) :
  list_page (list_query p r) (default_to 1%Z (page r))
    (default_to 10%Z (limit r)) s = Some found ->
  list_vehicles p r s
  = vehicles_data
      (map (if JS.truthy_opt (ownerId r) then booking_form_row
            else listing_row) (map (populate s) found))
      (List.length (Vehicle_find (list_query p r) s))
      (default_to 1%Z (page r)) (default_to 10%Z (limit r))
      (pages_of (List.length (Vehicle_find (list_query p r) s))
         (default_to 10%Z (limit r))).
Proof.
  intros H; unfold Vehicles.list_vehicles; rewrite H.
  unfold Vehicles.Vehicle_countDocuments.
  now destruct (JS.truthy_opt (ownerId r)).
Qed.

Lemma row_vehicle_id_rows (b : bool) (s : Store) (found : list Vehicle) :
  map row_vehicle_id
    (map (if b then booking_form_row else listing_row)
       (map (populate s) found))
  = map _id found.
Proof.
  rewrite !map_map; apply map_ext; intros v; now destruct b.
Qed.

(** X16. The rows of an answer stand, one for one and in order, for
    vehicles the filter selects, newest first: each row carries the id
    of its vehicle, and no row is made up. *)
Theorem listing_newest_first (p : Principal) (r : ListParams) (s : Store) :
  (1 <= default_to 1%Z (page r))%Z ->
  (1 <= default_to 10%Z (limit r))%Z ->
  exists found data total pg l pages,
    list_vehicles p r s = vehicles_data data total pg l pages
    /\ map row_vehicle_id data = map _id found
    /\ StronglySorted newer_first found
    /\ (forall v, In v found -> listed p r s v).
Proof.
  intros Hpg Hl.
  pose proof (list_page_some (list_query p r) _ _ s Hpg Hl) as Hp.
  eexists; eexists; eexists; eexists; eexists; eexists.
  split; [exact (list_vehicles_of_page p r s _ Hp)|].
  split; [apply row_vehicle_id_rows|].
  destruct (sort_createdAt_desc_spec (Vehicle_find (list_query p r) s))
    as [Hs Hin].
  split.
  - now apply StronglySorted_firstn, StronglySorted_skipn.
  - intros v Hv; apply firstn_In, skipn_In in Hv.
    now apply Hin in Hv.
Qed.

(** X17. Pages compose: for a limit of at least 1, the pages 1 to [n]
    of one filter, put end to end, are the first [n * limit] records of
    the sorted selection, without gap or repetition; once [n * limit]
    reaches the total they are the whole selection. *)
Theorem listing_pages_compose (q : Query) (l : Z) (s : Store) (n : nat) :
  (1 <= l)%Z ->
  exists chunks,
    Forall2 (fun k chunk => list_page q (Z.of_nat k) l s = Some chunk)
      (seq 1 n) chunks
    /\ concat chunks
       = firstn (n * Z.to_nat l) (sort_createdAt_desc (Vehicle_find q s))
    /\ ((List.length (Vehicle_find q s) <= n * Z.to_nat l)%nat ->
        Permutation (concat chunks) (Vehicle_find q s)).
Proof.
  intros Hl.
  set (sorted := sort_createdAt_desc (Vehicle_find q s)).
  assert (H : exists chunks,
             Forall2 (fun k chunk => list_page q (Z.of_nat k) l s
                                     = Some chunk) (seq 1 n) chunks
             /\ concat chunks = firstn (n * Z.to_nat l) sorted).
  { induction n as [|n [chunks [HF HC]]].
    - exists []; split; [constructor | reflexivity].
    - exists (chunks ++ [firstn (Z.to_nat l)
                           (skipn (n * Z.to_nat l) sorted)]); split.
      + rewrite seq_S; apply Forall2_app; [assumption|].
        constructor; [|constructor].
        rewrite list_page_some by lia.
        do 3 f_equal; nia.
      + rewrite concat_app, HC; simpl; rewrite app_nil_r.
        rewrite firstn_skipn_add; f_equal; lia. }
  destruct H as [chunks [HF HC]]; exists chunks.
  split; [assumption|]; split; [assumption|].
  intros Hlen; rewrite HC, firstn_all2.
  - apply sort_createdAt_desc_perm.
  - unfold sorted; now rewrite VehiclesFacts.sort_createdAt_desc_length.
Qed.

(** X18. A page after the last one is empty, and still reports the
    total and the page count of the filter. *)
Theorem listing_beyond_last_page (p : Principal) (r : ListParams)
  (s : Store) (pages : Z) :
  (1 <= default_to 10%Z (limit r))%Z ->
  pages_of (List.length (Vehicle_find (list_query p r) s))
    (default_to 10%Z (limit r)) = Some pages ->
  (Z.max 1 (pages + 1) <= default_to 1%Z (page r))%Z ->
  list_vehicles p r s
  = vehicles_data [] (List.length (Vehicle_find (list_query p r) s))
      (default_to 1%Z (page r)) (default_to 10%Z (limit r)) (Some pages).
Proof.
  intros Hl Hp Hpg.
  destruct (VehiclesFacts.pages_of_ceiling
              (List.length (Vehicle_find (list_query p r) s)) _ Hl)
    as (pages' & Hp' & Hceil).
  rewrite Hp in Hp'; injection Hp' as <-.
  assert (Hpg1 : (1 <= default_to 1%Z (page r))%Z) by lia.
  rewrite (list_vehicles_of_page p r s _
             (list_page_some (list_query p r) _ _ s Hpg1 Hl)), Hp.
  rewrite skipn_all2; [now rewrite firstn_nil; destruct (JS.truthy_opt _)|].
  rewrite VehiclesFacts.sort_createdAt_desc_length; nia.
Qed.

(** X19. In the main list a row is "Active" exactly when the owning
    user of the vehicle exists and is active (the vehicle itself is
    active, or it would not be listed), and "Inactive" otherwise; and
    no text of the row is empty: name, registration number, car type
    and email fall back to "N/A". *)
Theorem listing_row_status (p : Principal) (r : ListParams) (s : Store)
  (v : Vehicle) (row : ListingRow) :
  listed p r s v ->
  listing_row (populate s v) = Listing row ->
  (row_status row = "Active" <->
   exists uid u, ownerUserId v = Some uid
                 /\ User_findById uid s = Some u
                 /\ user_isActive u = true)
  /\ (row_status row = "Active" \/ row_status row = "Inactive")
  /\ row_name row <> EmptyString
  /\ row_registrationNo row <> EmptyString
  /\ row_carType row <> EmptyString
  /\ row_email row <> EmptyString.
Proof.
  intros Hl Hrow.
  apply (VehiclesFacts.find_In regex_test) in Hl; destruct Hl as [_ Hm].
  rewrite (VehiclesFacts.list_query_matches regex_test) in Hm.
  apply andb_true_iff in Hm; destruct Hm as [Hm _].
  apply andb_true_iff in Hm; destruct Hm as [_ Ha].
  unfold listing_row, populate in Hrow; cbn [doc owner] in Hrow.
  injection Hrow as <-.
  cbn [row_status row_name row_registrationNo row_carType row_email].
  rewrite Ha; cbn [andb].
  split; [|split; [|repeat split;
                     first [ apply or_default_nonempty; discriminate
                           | match goal with
                             | |- (if JS.truthy ?x then _ else _) <> _ =>
                                 destruct x; simpl; discriminate
                             end ]]].
  - destruct (ownerUserId v) as [uid|].
    + destruct (User_findById uid s) as [u|] eqn:Ef.
      * destruct (user_isActive u) eqn:Eu.
        -- split; [intros _; now exists uid, u | reflexivity].
        -- split; [discriminate|].
           intros (uid' & u' & [= <-] & Ef' & Hu); congruence.
      * split; [discriminate|].
        intros (uid' & u' & [= <-] & Ef' & _); congruence.
    + split; [discriminate|].
      intros (uid' & u' & [=] & _).
  - destruct (match ownerUserId v with
              | Some id => User_findById id s
              | None => None
              end) as [u|]; [destruct (user_isActive u)|]; auto.
Qed.

(** X20. A search only narrows a listing: whatever a request with a
    search selects, the same request without the search selects too,
    so its total is no larger. *)
Theorem listing_search_narrows (p : Principal) (r : ListParams)
  (s : Store) :
  (forall v, listed p r s v ->
             listed p {| page := page r; limit := limit r; search := None;
                         ownerId := ownerId r |} s v)
  /\ (Vehicle_countDocuments regex_test (list_query p r) s
      <= Vehicle_countDocuments regex_test
           (list_query p {| page := page r; limit := limit r;
                            search := None; ownerId := ownerId r |}) s)%nat.
Proof.
  assert (H : forall v,
             matches (list_query p r) v = true ->
             matches (list_query p {| page := page r; limit := limit r;
                                      search := None;
                                      ownerId := ownerId r |}) v = true).
  { intros v; rewrite !(VehiclesFacts.list_query_matches regex_test).
    cbn [search ownerId Vehicles.search_matches].
    rewrite andb_true_r, andb_true_iff; tauto. }
  split.
  - intros v Hv; apply (VehiclesFacts.find_In regex_test) in Hv.
    apply (VehiclesFacts.find_In regex_test); intuition.
  - unfold Vehicle_countDocuments, Vehicles.Vehicle_find.
    now apply filter_length_le.
Qed.

End More.


Import Samples.

Lemma store1_ids : NoDup (map _id (vehicles store1)).
Proof. simpl; repeat constructor; simpl; intuition discriminate. Qed.

Lemma store1_user_ids : NoDup (map user_id (users store1)).
Proof. simpl; repeat constructor; simpl; intuition discriminate. Qed.

Lemma generate_image_validation_witness :
  generate_image literal_regex provider_ok alice
    (body "v1" "Toyota" "" "nineteen") store1
  = (validation_error "Model is required", store1).
Proof.
  apply (proj2 (generate_image_validation literal_regex provider_ok alice
                  (body "v1" "Toyota" "" "nineteen") store1)).
  discriminate.
Defined.

Lemma generate_image_stores_image_witness :
  fst (generate_image literal_regex provider_ok alice
         (body "v1" "Toyota" "Corolla" "2019") store1)
  = image_generated "v1" (Some "https://img.example/Toyota.png")
  /\ List.length
       (auditLog (snd (generate_image literal_regex provider_ok alice
                         (body "v1" "Toyota" "Corolla" "2019") store1)))
     = 1%nat.
Proof.
  destruct (generate_image_stores_image literal_regex provider_ok alice
              (body "v1" "Toyota" "Corolla" "2019") store1
              (vehicle "v1" (Some "u1") None true 10)
              "https://img.example/Toyota.png"
              store1_ids eq_refl eq_refl eq_refl)
    as (Hr & _ & _ & Ha & _).
  split; [exact Hr | now rewrite Ha].
Defined.

(** A store whose audit write throws. *)
Lemma generate_image_frame_witness :
  fst (generate_image_with literal_regex provider_ok
         {| findOne_fault := None; save_fault := None;
            create_fault := Some "audit log unavailable" |}
         alice (body "v1" "Toyota" "Corolla" "2019") store1)
  = internal_error "Failed to generate vehicle image"
  /\ option_map imageUrl
       (nth_error
          (vehicles
             (snd (generate_image_with literal_regex provider_ok
                     {| findOne_fault := None; save_fault := None;
                        create_fault := Some "audit log unavailable" |}
                     alice (body "v1" "Toyota" "Corolla" "2019") store1)))
          0)
     = Some (Some "https://img.example/Toyota.png")
  /\ snd (generate_image_with literal_regex provider_rate_limited no_faults
            alice (body "v1" "Toyota" "Corolla" "2019") store1) = store1.
Proof.
  split; [|split].
  - exact (proj1 (proj1 (proj2 (proj2 (proj2 (proj2 (proj2
             (generate_image_frame literal_regex provider_ok
                {| findOne_fault := None; save_fault := None;
                   create_fault := Some "audit log unavailable" |}
                alice (body "v1" "Toyota" "Corolla" "2019") store1))))))
             (vehicle "v1" (Some "u1") None true 10)
             "https://img.example/Toyota.png" "audit log unavailable"
             eq_refl eq_refl eq_refl eq_refl eq_refl eq_refl)).
  - destruct (proj1 (proj2 (proj2 (proj2 (proj2 (proj2
                (generate_image_frame literal_regex provider_ok
                   {| findOne_fault := None; save_fault := None;
                      create_fault := Some "audit log unavailable" |}
                   alice (body "v1" "Toyota" "Corolla" "2019") store1))))))
                (vehicle "v1" (Some "u1") None true 10)
                "https://img.example/Toyota.png" "audit log unavailable"
                eq_refl eq_refl eq_refl eq_refl eq_refl eq_refl)
      as (_ & _ & Hv & _).
    now rewrite Hv.
  - apply (proj1 (proj2 (proj2 (proj2
             (generate_image_frame literal_regex provider_rate_limited
                no_faults alice (body "v1" "Toyota" "Corolla" "2019")
                store1))))).
    + intros id url; discriminate.
    + reflexivity.
Defined.

Lemma generate_image_then_get_witness :
  get_vehicle literal_regex alice "v1"
    (snd (generate_image literal_regex provider_ok alice
            (body "v1" "Toyota" "Corolla" "2019") store1))
  = vehicle_data
      (set_imageUrl "https://img.example/Toyota.png"
         (vehicle "v1" (Some "u1") None true 10)).
Proof.
  exact (generate_image_then_get literal_regex provider_ok alice
           (body "v1" "Toyota" "Corolla" "2019") store1
           (vehicle "v1" (Some "u1") None true 10)
           "https://img.example/Toyota.png"
           store1_ids eq_refl eq_refl eq_refl).
Defined.

Lemma generate_image_agrees_with_get_witness :
  fst (generate_image literal_regex provider_ok alice
         (body "v3" "Toyota" "Corolla" "2019") store1) = vehicle_not_found.
Proof.
  apply (proj2 (generate_image_agrees_with_get literal_regex provider_ok
                  alice (body "v3" "Toyota" "Corolla" "2019") store1
                  eq_refl)).
  reflexivity.
Defined.

Lemma image_request_color_witness :
  image_color (image_request (body "v5" "Mazda" "Demio" "2015")
                 (walk_in "v5" (Some "g1") (Some "Wanjiru") (Some "0700")
                    None 50)) = "red"
  /\ image_color (image_request (body "v1" "Toyota" "Corolla" "2019")
                    (vehicle "v1" (Some "u1") None true 10)) = "silver".
Proof.
  split.
  - apply (proj1 (proj2 (proj2 (image_request_color _ _))));
      [reflexivity | reflexivity | discriminate].
  - apply (proj2 (proj2 (proj2 (image_request_color _ _))));
      [reflexivity | now left].
Defined.

Lemma get_vehicle_not_found_witness :
  get_vehicle literal_regex alice "v3" store1 = vehicle_not_found.
Proof.
  apply (proj1 (get_vehicle_not_found literal_regex alice "v3" store1)).
  intros v Hin Hid; VehiclesFacts.each_member Hin; try discriminate Hid.
  intros [H|H]; discriminate.
Defined.

Lemma roster_sound_complete_witness :
  exists c, In c (roster literal_regex "g1" store1) /\ client_id c = "u2".
Proof.
  apply (proj1 (proj2 (roster_sound_complete literal_regex "g1" store1))
           (vehicle "v7" (Some "u2") (Some "g1") true 70) "u2").
  - simpl; auto 10.
  - reflexivity.
  - reflexivity.
  - reflexivity.
  - exists (user "u2" None false); simpl; auto.
Defined.

Lemma roster_entries_named_witness :
  client_name (registered_client (user "u2" None false)) <> EmptyString.
Proof.
  apply (roster_entries_named literal_regex "g1" store1).
  left; reflexivity.
Defined.

Lemma clients_missing_org_witness :
  clients literal_regex alice store1
  = bad_request "Organization ID required".
Proof.
  apply (proj1 (clients_missing_org literal_regex alice store1)).
  reflexivity.
Defined.

Lemma metrics_bounds_witness :
  (l_activeUsers (metrics_locals literal_regex garage_admin store1)
   <= l_totalUsers (metrics_locals literal_regex garage_admin store1))%nat.
Proof.
  exact (proj2 (proj2 (metrics_bounds literal_regex garage_admin store1))
           store1_user_ids).
Defined.

Lemma listing_newest_first_witness :
  exists found data total pg l pages,
    list_vehicles literal_regex alice
      {| page := Some 2%Z; limit := Some 5%Z; search := None;
         ownerId := None |} store12
    = vehicles_data data total pg l pages
    /\ map row_vehicle_id data = map _id found
    /\ StronglySorted newer_first found
    /\ (forall v, In v found ->
                  listed literal_regex alice
                    {| page := Some 2%Z; limit := Some 5%Z; search := None;
                       ownerId := None |} store12 v).
Proof.
  apply (listing_newest_first literal_regex alice
           {| page := Some 2%Z; limit := Some 5%Z; search := None;
              ownerId := None |} store12); simpl; lia.
Defined.

Lemma listing_pages_compose_witness :
  exists chunks,
    Forall2 (fun k chunk =>
               list_page literal_regex (list_query alice no_params)
                 (Z.of_nat k) 5 store12 = Some chunk)
      (seq 1 3) chunks
    /\ Permutation (concat chunks)
         (Vehicle_find literal_regex (list_query alice no_params) store12).
Proof.
  destruct (listing_pages_compose literal_regex
              (list_query alice no_params) 5 store12 3 ltac:(lia))
    as (chunks & HF & _ & HP).
  exists chunks; split; [exact HF|].
  apply HP; vm_compute; lia.
Defined.

Lemma listing_beyond_last_page_witness :
  list_vehicles literal_regex alice
    {| page := Some 4%Z; limit := Some 5%Z; search := None;
       ownerId := None |} store12
  = vehicles_data [] 12 4 5 (Some 3%Z).
Proof.
  apply (listing_beyond_last_page literal_regex alice
           {| page := Some 4%Z; limit := Some 5%Z; search := None;
              ownerId := None |} store12 3);
    [simpl; lia | reflexivity | simpl; lia].
Defined.

Lemma listing_row_status_witness :
  match listing_row
          (populate store1 (vehicle "v3" (Some "u2") (Some "g1") true 30))
  with
  | Listing row => row_status row = "Inactive" /\ row_email row <> EmptyString
  | BookingForm _ => False
  end.
Proof.
  destruct (listing_row_status literal_regex garage_admin no_params store1
              (vehicle "v3" (Some "u2") (Some "g1") true 30) _
              ltac:(unfold listed; vm_compute; auto 10) eq_refl)
    as (Hs & Hc & _ & _ & _ & He).
  split; [|exact He].
  destruct Hc as [Hc|Hc]; [|exact Hc].
  apply Hs in Hc; destruct Hc as (uid & u & [= <-] & [= <-] & Hu).
  discriminate Hu.
Defined.

Lemma listing_search_narrows_witness :
  listed literal_regex garage_admin
    {| page := None; limit := None; search := None; ownerId := None |}
    store1 (walk_in "v5" (Some "g1") (Some "Wanjiru") (Some "0700") None 50).
Proof.
  apply (proj1 (listing_search_narrows literal_regex garage_admin
                  {| page := None; limit := None; search := Some "wanj";
                     ownerId := None |} store1)).
  unfold listed; vm_compute; auto 10.
Defined.

End VehiclesMore.
